(** * rss2email: seen-item deduplication and delivery decisions

    A shallow embedding of [rss2email.go].  Go strings are byte strings and
    are modelled by [string]; the process environment, the file system, the
    network, the mail transport subprocess and standard output are the
    fields of an explicit [World] threaded through a small state monad. *)

From Stdlib Require Import ZArith String Ascii List Lia Bool.
From stdpp Require Import gmap strings list pretty.

Import ListNotations.
Local Open Scope string_scope.
Local Open Scope list_scope.
Local Open Scope Z_scope.

(** ** crypto/sha1 and encoding/hex, as used by [GUID2Hash] *)

Module SHA1.

(** [uint32] arithmetic with the wrap-around written out. *)
Definition mask32 : Z := 0xFFFFFFFF.
Definition u32 (x : Z) : Z := Z.land x mask32.
Definition add32 (a b : Z) : Z := u32 (a + b).
Definition not32 (a : Z) : Z := Z.lxor a mask32.
Definition RotateLeft32 (x : Z) (k : Z) : Z :=
  u32 (Z.lor (Z.shiftl x k) (Z.shiftr x (32 - k))).

Definition chunk : nat := 64.

Definition init0 : Z := 0x67452301.
Definition init1 : Z := 0xEFCDAB89.
Definition init2 : Z := 0x98BADCFE.
Definition init3 : Z := 0x10325476.
Definition init4 : Z := 0xC3D2E1F0.

Definition _K0 : Z := 0x5A827999.
Definition _K1 : Z := 0x6ED9EBA1.
Definition _K2 : Z := 0x8F1BBCDC.
Definition _K3 : Z := 0xCA62C1D6.

(** The running digest: the five chaining words, the bytes of the
    incomplete block ([x[:nx]] in Go) and the byte count. *)
Record digest := Digest {
  h0 : Z; h1 : Z; h2 : Z; h3 : Z; h4 : Z;
  x : list Z;
  len : Z
}.

Definition New : digest := Digest init0 init1 init2 init3 init4 [] 0.

(** Big-endian load of the sixteen words of one block. *)
Fixpoint load_words (n : nat) (p : list Z) : list Z :=
  match n with
  | O => []
  | S n' =>
      match p with
      | b0 :: b1 :: b2 :: b3 :: rest =>
          Z.lor (Z.lor (Z.lor (Z.shiftl b0 24) (Z.shiftl b1 16)) (Z.shiftl b2 8)) b3
            :: load_words n' rest
      | _ => 0 :: load_words n' []
      end
  end.

(** The message schedule, newest word first: [w[t]] is
    [rotl1 (w[t-3] xor w[t-8] xor w[t-14] xor w[t-16])]. *)
Fixpoint schedule (n : nat) (rev_w : list Z) : list Z :=
  match n with
  | O => rev_w
  | S n' =>
      let tmp := Z.lxor (Z.lxor (Z.lxor (nth 2 rev_w 0) (nth 7 rev_w 0))
                                (nth 13 rev_w 0)) (nth 15 rev_w 0) in
      schedule n' (RotateLeft32 tmp 1 :: rev_w)
  end.

Definition round_f (i : nat) (b c d : Z) : Z :=
  if (i <? 20)%nat then Z.lor (Z.land b c) (Z.land (not32 b) d)
  else if (i <? 40)%nat then Z.lxor (Z.lxor b c) d
  else if (i <? 60)%nat then Z.lor (Z.land (Z.lor b c) d) (Z.land b c)
  else Z.lxor (Z.lxor b c) d.

Definition round_k (i : nat) : Z :=
  if (i <? 20)%nat then _K0
  else if (i <? 40)%nat then _K1
  else if (i <? 60)%nat then _K2
  else _K3.

Fixpoint rounds (i : nat) (w : list Z) (s : Z * Z * Z * Z * Z)
  : Z * Z * Z * Z * Z :=
  match w with
  | [] => s
  | wi :: w' =>
      let '(a, b, c, d, e) := s in
      let t := add32 (add32 (add32 (add32 (RotateLeft32 a 5) (round_f i b c d)) e) wi)
                     (round_k i) in
      rounds (S i) w' (t, a, RotateLeft32 b 30, c, d)
  end.

(** One application of the compression function to a 64-byte block. *)
Definition block (dig : digest) (p : list Z) : digest :=
  let w := rev (schedule 64 (rev (load_words 16 p))) in
  let '(a, b, c, d, e) := rounds 0 w (h0 dig, h1 dig, h2 dig, h3 dig, h4 dig) in
  Digest (add32 (h0 dig) a) (add32 (h1 dig) b) (add32 (h2 dig) c)
         (add32 (h3 dig) d) (add32 (h4 dig) e) (x dig) (len dig).

(** [Write]: bytes accumulate in [x]; every full block is compressed. *)
Definition write_byte (d : digest) (b : Z) : digest :=
  let x' := x d ++ [b] in
  let d' := Digest (h0 d) (h1 d) (h2 d) (h3 d) (h4 d) x' (len d + 1) in
  if (length x' =? chunk)%nat
  then let d'' := block d' x' in
       Digest (h0 d'') (h1 d'') (h2 d'') (h3 d'') (h4 d'') [] (len d'')
  else d'.

Definition Write (d : digest) (p : list Z) : digest := fold_left write_byte p d.

Definition BEPutUint64 (v : Z) : list Z :=
  map (fun k => Z.land (Z.shiftr v k) 255) [56; 48; 40; 32; 24; 16; 8; 0].

Definition BEPutUint32 (v : Z) : list Z :=
  map (fun k => Z.land (Z.shiftr v k) 255) [24; 16; 8; 0].

(** [checkSum]: a 1 bit, 0 bits up to 56 bytes mod 64, then the length in
    bits as a [uint64]. *)
Definition checkSum (d : digest) : list Z :=
  let l := len d in
  let t := if l mod 64 <? 56 then 56 - l mod 64 else 64 + 56 - l mod 64 in
  let bits := Z.land (Z.shiftl l 3) 0xFFFFFFFFFFFFFFFF in
  let padlen := 0x80 :: repeat 0 (Z.to_nat t - 1) ++ BEPutUint64 bits in
  let d' := Write d padlen in
  BEPutUint32 (h0 d') ++ BEPutUint32 (h1 d') ++ BEPutUint32 (h2 d')
    ++ BEPutUint32 (h3 d') ++ BEPutUint32 (h4 d').

(** [Sum(nil)] on a copy of the digest. *)
Definition Sum (d : digest) : list Z := checkSum d.

End SHA1.

Module Hex.

Definition hextable : list ascii := list_ascii_of_string "0123456789abcdef".

(** [hex.EncodeToString]: two table look-ups per byte, high nibble first. *)
Fixpoint EncodeToString (src : list Z) : string :=
  match src with
  | [] => EmptyString
  | v :: rest =>
      String (nth (Z.to_nat (Z.shiftr v 4)) hextable "?"%char)
        (String (nth (Z.to_nat (Z.land v 0x0f)) hextable "?"%char)
           (EncodeToString rest))
  end.

End Hex.

(** [[]byte(s)] *)
Fixpoint bytes_of_string (s : string) : list Z :=
  match s with
  | EmptyString => []
  | String c r => Z.of_N (N_of_ascii c) :: bytes_of_string r
  end.

(** [GUID2Hash] converts a GUID into something usable on the file system. *)
Definition GUID2Hash (guid : string) : string :=
  let hasher := SHA1.Write SHA1.New (bytes_of_string guid) in
  let hashBytes := SHA1.Sum hasher in
  let hexSha1 := Hex.EncodeToString hashBytes in
  hexSha1.

(** ** Strings: the pieces of [strings], [bufio] and [fmt] that are used *)

Definition nl : string := String (ascii_of_nat 10) EmptyString.

Fixpoint string_of_codes (l : list nat) : string :=
  match l with
  | [] => EmptyString
  | c :: r => String (ascii_of_nat c) (string_of_codes r)
  end.

(** The UTF-8 encodings of the runes for which [unicode.IsSpace] holds:
    the six ASCII ones ([asciiSpace] in [strings]), U+0085, U+00A0, U+1680,
    U+2000..U+200A, U+2028, U+2029, U+202F, U+205F and U+3000. *)
Definition space_encodings : list string :=
  map string_of_codes
    [ [9%nat]; [10%nat]; [11%nat]; [12%nat]; [13%nat]; [32%nat];
      [194; 133]%nat; [194; 160]%nat; [225; 154; 128]%nat;
      [226; 128; 128]%nat; [226; 128; 129]%nat; [226; 128; 130]%nat;
      [226; 128; 131]%nat; [226; 128; 132]%nat; [226; 128; 133]%nat;
      [226; 128; 134]%nat; [226; 128; 135]%nat; [226; 128; 136]%nat;
      [226; 128; 137]%nat; [226; 128; 138]%nat; [226; 128; 168]%nat;
      [226; 128; 169]%nat; [226; 128; 175]%nat; [226; 129; 159]%nat;
      [227; 128; 128]%nat ].

(** [strings.HasPrefix], returning what follows the prefix. *)
Fixpoint strip_prefix (p s : string) : option string :=
  match p, s with
  | EmptyString, _ => Some s
  | String a p', String b s' => if Ascii.eqb a b then strip_prefix p' s' else None
  | String _ _, EmptyString => None
  end.

Definition HasPrefix (s p : string) : bool :=
  match strip_prefix p s with Some _ => true | None => false end.

(** One leading white-space rune removed, if there is one. *)
Fixpoint strip_first (encs : list string) (s : string) : option string :=
  match encs with
  | [] => None
  | e :: encs' =>
      match strip_prefix e s with
      | Some r => Some r
      | None => strip_first encs' s
      end
  end.

(** [strings.TrimLeftFunc s unicode.IsSpace]; every step removes at least
    one byte, so the length of [s] is enough fuel. *)
Fixpoint trim_left_fuel (encs : list string) (fuel : nat) (s : string) : string :=
  match fuel with
  | O => s
  | S fuel' =>
      match strip_first encs s with
      | Some r => trim_left_fuel encs fuel' r
      | None => s
      end
  end.

Definition TrimLeftSpace (s : string) : string :=
  trim_left_fuel space_encodings (String.length s) s.

(** [strings.TrimRightFunc s unicode.IsSpace]: the same scan from the end. *)
Definition TrimRightSpace (s : string) : string :=
  String.rev (trim_left_fuel (map String.rev space_encodings) (String.length s)
                (String.rev s)).

(** [strings.TrimSpace] *)
Definition TrimSpace (s : string) : string := TrimRightSpace (TrimLeftSpace s).

(** [dropCR] of [bufio]: one trailing carriage return is dropped. *)
Definition dropCR (data : string) : string :=
  match strip_prefix (string_of_codes [13%nat]) (String.rev data) with
  | Some r => String.rev r
  | None => data
  end.

(** The lines of [data] as they stand, cut at every newline; [cur] holds
    the bytes of the line being read, in reverse.  A final line without a
    newline is a line when it is not empty. *)
Fixpoint split_lines (cur : string) (data : string) : list string :=
  match data with
  | EmptyString =>
      match cur with
      | EmptyString => []
      | _ => [String.rev cur]
      end
  | String c rest =>
      if Ascii.eqb c (ascii_of_nat 10)
      then String.rev cur :: split_lines EmptyString rest
      else split_lines (String c cur) rest
  end.

Definition raw_lines (data : string) : list string := split_lines EmptyString data.

(** [bufio.MaxScanTokenSize]: the buffer of a [bufio.Scanner] grows to
    64 KiB and no further. *)
Definition MaxScanTokenSize : N := 65536.

(** A line the scanner can hold: with the buffer full and no newline in
    it, [Scan] gives up with [ErrTooLong]. *)
Definition fits (line : string) : bool :=
  (N.of_nat (String.length line) <? MaxScanTokenSize)%N.

(** The tokens of the scanner, from the lines: each less its carriage
    return, up to the first line that does not fit, where [Scan] returns
    false for good. *)
Fixpoint scan_tokens (lines : list string) : list string :=
  match lines with
  | [] => []
  | l :: rest => if fits l then dropCR l :: scan_tokens rest else []
  end.

(** The tokens a [bufio.Scanner] with the default [ScanLines] split yields
    for the bytes [data], one per successful [Scan]. *)
Definition ScanLines (data : string) : list string := scan_tokens (raw_lines data).

(** The lines of a file, each less its carriage return: what the scanner
    would yield were there no limit on the length of a line. *)
Definition file_lines (data : string) : list string := map dropCR (raw_lines data).

(** The directory of a path: what precedes its last slash. *)
Fixpoint parent (s : string) : option string :=
  match s with
  | EmptyString => None
  | String c r =>
      match parent r with
      | Some d => Some (String c d)
      | None => if Ascii.eqb c "/"%char then Some EmptyString else None
      end
  end.

(** ** Errors *)

Inductive Errno := ENOENT | EACCES | EIO | ENOSPC | EISDIR | ENOTDIR.

(** Go [error] values; [nil] is [None] of [option error]. *)
Inductive error :=
| PathError (op path : string) (errno : Errno)   (* *os.PathError *)
| ErrorString (msg : string).                    (* errors.New and the like *)

Definition errno_text (e : Errno) : string :=
  match e with
  | ENOENT => "no such file or directory"
  | EACCES => "permission denied"
  | EIO => "input/output error"
  | ENOSPC => "no space left on device"
  | EISDIR => "is a directory"
  | ENOTDIR => "not a directory"
  end.

(** [err.Error()] *)
Definition Error (e : error) : string :=
  match e with
  | PathError op path errno => op +:+ " " +:+ path +:+ ": " +:+ errno_text errno
  | ErrorString msg => msg
  end.

(** [os.IsNotExist] *)
Definition IsNotExist (err : option error) : bool :=
  match err with
  | Some (PathError _ _ ENOENT) => true
  | _ => false
  end.

(** ** Collaborators *)

(** [gofeed.Item] and [gofeed.Feed], with the fields the program reads. *)
Record Item := { GUID : string; Link : string; Title : string; Content : string }.
Record Feed := { Items : list Item }.

(** What one [quotedprintable.Writer] over a [bytes.Buffer] does with its
    input: the error of [Write], the error of [Close], the buffer. *)
Record QPWriter := {
  qp_write_err : option error;
  qp_close_err : option error;
  qp_buffer : string
}.

(** The libraries whose behaviour the program takes as given. *)
Class Collaborators := {
  ParseString : string -> Feed * option error;     (* gofeed *)
  HTML2Text : string -> string;                    (* html2text *)
  UnescapeString : string -> string;               (* html *)
  quotedprintable : string -> QPWriter             (* mime/quotedprintable *)
}.

(** One HTTP exchange of [FetchFeed]. *)
Record Exchange := {
  new_request_err : option error;       (* http.NewRequest *)
  do_err : option error;                (* client.Do *)
  read_body : string * option error     (* ioutil.ReadAll(resp.Body) *)
}.

(** One run of [/usr/sbin/sendmail] as the parent process sees it. *)
Record Subprocess := {
  stdin_pipe_err : option error;        (* sendmail.StdinPipe() *)
  stdout_pipe_err : option error;       (* sendmail.StdoutPipe() *)
  start_err : option error;             (* sendmail.Start() *)
  write_err : option error;             (* stdin.Write(buf.Bytes()) *)
  read_out : string * option error;     (* ioutil.ReadAll(stdout) *)
  wait_err : option error               (* sendmail.Wait(): not nil on a
                                           non-zero exit status *)
}.

(** ** The world *)

(** Calls recorded for the statements below (not program state):
    [FetchFeed] when entered, [SendMail] with the error it returned, and
    [RecordSeen] with the error of its [WriteFile], which the program
    itself drops. *)
Inductive Event :=
| CallFetchFeed (url : string)
| CallSendMail (addr subject textstr htmlstr : string) (ret : option error)
| CallRecordSeen (guid link : string) (werr : option error).

(** A file system: regular files by path, directories, the paths whose
    look-up fails with an error other than not-exist, the paths that
    cannot be created or opened for writing, the paths on which a write
    fails after the file was opened (with the number of bytes that reach
    the file first), and the paths on which a read fails (with the number
    of bytes read first). *)
Record FileSystem := {
  files : gmap string string;
  dirs : gset string;
  noaccess : gset string;
  readonly : gset string;
  short_write : gmap string nat;
  short_read : gmap string nat
}.

Definition with_files (m : gmap string string) (f : FileSystem) : FileSystem :=
  {| files := m; dirs := dirs f; noaccess := noaccess f; readonly := readonly f;
     short_write := short_write f; short_read := short_read f |}.

Definition with_dirs (d : gset string) (f : FileSystem) : FileSystem :=
  {| files := files f; dirs := d; noaccess := noaccess f; readonly := readonly f;
     short_write := short_write f; short_read := short_read f |}.

(** The directory a file is to be created in is there. *)
Definition parent_exists (f : FileSystem) (filename : string) : bool :=
  match parent filename with
  | Some d => bool_decide (d = "" \/ d ∈ dirs f)
  | None => true
  end.

(** The network and the mail transport answer by the number of calls
    recorded so far, so that they may answer differently each time. *)
Record World := {
  VERBOSE : bool;
  environ : gmap string string;
  fs : FileSystem;
  network : nat -> string -> Exchange;
  sendmail_runs : nat -> Subprocess;
  stdout : list string;
  trace : list Event
}.

Definition with_VERBOSE (v : bool) (w : World) : World :=
  {| VERBOSE := v; environ := environ w; fs := fs w; network := network w;
     sendmail_runs := sendmail_runs w; stdout := stdout w; trace := trace w |}.

Definition with_fs (f : FileSystem) (w : World) : World :=
  {| VERBOSE := VERBOSE w; environ := environ w; fs := f; network := network w;
     sendmail_runs := sendmail_runs w; stdout := stdout w; trace := trace w |}.

Definition with_stdout (o : list string) (w : World) : World :=
  {| VERBOSE := VERBOSE w; environ := environ w; fs := fs w; network := network w;
     sendmail_runs := sendmail_runs w; stdout := o; trace := trace w |}.

Definition with_trace (t : list Event) (w : World) : World :=
  {| VERBOSE := VERBOSE w; environ := environ w; fs := fs w; network := network w;
     sendmail_runs := sendmail_runs w; stdout := stdout w; trace := t |}.

(** ** A state monad over the world *)

Definition M (A : Type) : Type := World -> A * World.

Definition ret {A} (a : A) : M A := fun w => (a, w).
Definition bind {A B} (m : M A) (k : A -> M B) : M B :=
  fun w => let '(a, w') := m w in k a w'.

Declare Scope go_scope.
Delimit Scope go_scope with go.
Notation "x <- m ;; k" := (bind m (fun x => k))
  (at level 100, m at next level, right associativity) : go_scope.
Notation "m ;;; k" := (bind m (fun _ => k))
  (at level 100, right associativity) : go_scope.
Local Open Scope go_scope.

Definition when (b : bool) (m : M unit) : M unit := if b then m else ret tt.

(** [for _, x := range xs { body x }] *)
Fixpoint for_range {A} (xs : list A) (body : A -> M unit) : M unit :=
  match xs with
  | [] => ret tt
  | x :: xs' => body x ;;; for_range xs' body
  end.

Definition exec {A} (m : M A) (w : World) : World := snd (m w).
Definition eval {A} (m : M A) (w : World) : A := fst (m w).

(** *** Primitive operations *)

Definition Printf (s : string) : M unit :=
  fun w => (tt, with_stdout (stdout w ++ [s]) w).

Definition record (e : Event) : M unit :=
  fun w => (tt, with_trace (trace w ++ [e]) w).

Definition get_VERBOSE : M bool := fun w => (VERBOSE w, w).
Definition set_VERBOSE (v : bool) : M unit := fun w => (tt, with_VERBOSE v w).

(** [os.Getenv]: the empty string when the variable is not set. *)
Definition Getenv (key : string) : M string :=
  fun w => (default "" (environ w !! key), w).

(** [os.Stat], keeping the error only. *)
Definition Stat (name : string) : M (option error) :=
  fun w =>
    if decide (name ∈ noaccess (fs w)) then (Some (PathError "stat" name EACCES), w)
    else match files (fs w) !! name with
         | Some _ => (None, w)
         | None =>
             if decide (name ∈ dirs (fs w)) then (None, w)
             else (Some (PathError "stat" name ENOENT), w)
         end.

(** [os.MkdirAll]: nothing to do where the directory is there, an error
    where a file is in its place or the directory cannot be made. *)
Definition MkdirAll (path : string) : M (option error) :=
  fun w =>
    if decide (path ∈ dirs (fs w)) then (None, w)
    else if decide (is_Some (files (fs w) !! path))
    then (Some (PathError "mkdir" path ENOTDIR), w)
    else if decide (path ∈ readonly (fs w))
    then (Some (PathError "mkdir" path EACCES), w)
    else (None, with_fs (with_dirs ({[path]} ∪ dirs (fs w)) (fs w)) w).

(** [ioutil.WriteFile]: the file is opened with [O_CREATE|O_TRUNC], which
    fails, changing nothing, where the path cannot be written, is a
    directory, or its directory is missing; then the data are written and
    the file closed.  When that fails the error is returned and the file
    stays, created or truncated, with the bytes that reached it. *)
Definition WriteFile (filename : string) (data : string) : M (option error) :=
  fun w =>
    if decide (filename ∈ readonly (fs w))
    then (Some (PathError "open" filename EACCES), w)
    else if decide (filename ∈ dirs (fs w))
    then (Some (PathError "open" filename EISDIR), w)
    else if parent_exists (fs w) filename
    then match short_write (fs w) !! filename with
         | Some n =>
             (Some (PathError "write" filename ENOSPC),
              with_fs (with_files (<[filename := substring 0 n data]> (files (fs w)))
                         (fs w)) w)
         | None =>
             (None, with_fs (with_files (<[filename := data]> (files (fs w))) (fs w)) w)
         end
    else (Some (PathError "open" filename ENOENT), w).

(** [os.Open] followed by the reads of the scanner: the error of
    [os.Open], or the bytes read up to the end of the file or to the first
    read error, which ends the scan as the end of the file does.  A
    directory opens and no byte can be read from it. *)
Definition Open (name : string) : M (string * option error) :=
  fun w =>
    if decide (name ∈ noaccess (fs w)) then (("", Some (PathError "open" name EACCES)), w)
    else match files (fs w) !! name with
         | Some data =>
             match short_read (fs w) !! name with
             | Some n => ((substring 0 n data, None), w)
             | None => ((data, None), w)
             end
         | None =>
             if decide (name ∈ dirs (fs w)) then (("", None), w)
             else (("", Some (PathError "open" name ENOENT)), w)
         end.

(** ** The program *)

Definition version : string := "master/unreleased".

Record TemplateParms := {
  To : string; From : string; Text : string; HTML : string; Subject : string
}.

Definition boundary_mixed : string :=
  "21ee3da964c7bf70def62adb9ee1a061747003c026e363e47231258c48f1".
Definition boundary_related : string :=
  "76a1282373c08a65dd49db1dea2c55111fda9a715c89720a844fabb7d497".
Definition boundary_alternative : string :=
  "4186c39e13b2140c88094b3933206336f2bb3948db7ecf064c7a7d7473f2".

(** [Template] rendered with [x] into a [bytes.Buffer]: the literal text
    with the five fields put in, unescaped, as [text/template] does. *)
Definition Execute (x : TemplateParms) : string :=
  "Content-Type: multipart/mixed; boundary=" +:+ boundary_mixed +:+ nl +:+
  "From: " +:+ From x +:+ nl +:+
  "To: " +:+ To x +:+ nl +:+
  "Subject: [rss2email] " +:+ Subject x +:+ nl +:+
  "Mime-Version: 1.0" +:+ nl +:+
  nl +:+
  "--" +:+ boundary_mixed +:+ nl +:+
  "Content-Type: multipart/related; boundary=" +:+ boundary_related +:+ nl +:+
  nl +:+
  "--" +:+ boundary_related +:+ nl +:+
  "Content-Type: multipart/alternative; boundary=" +:+ boundary_alternative +:+ nl +:+
  nl +:+
  "--" +:+ boundary_alternative +:+ nl +:+
  "Content-Type: text/plain; charset=UTF-8" +:+ nl +:+
  "Content-Transfer-Encoding: quoted-printable" +:+ nl +:+
  nl +:+
  Text x +:+ nl +:+
  "--" +:+ boundary_alternative +:+ nl +:+
  "Content-Type: text/html; charset=UTF-8" +:+ nl +:+
  "Content-Transfer-Encoding: quoted-printable" +:+ nl +:+
  nl +:+
  HTML x +:+ nl +:+
  "--" +:+ boundary_alternative +:+ "--" +:+ nl +:+
  nl +:+
  "--" +:+ boundary_related +:+ "--" +:+ nl +:+
  "--" +:+ boundary_mixed +:+ "--" +:+ nl.

Section Program.

Context `{C : Collaborators}.

(** [toQuotedPrintable] converts its input to quoted-printable. *)
Definition toQuotedPrintable (s : string) : string * option error :=
  let w := quotedprintable s in
  match qp_write_err w with
  | Some err => ("", Some err)
  | None =>
      match qp_close_err w with
      | Some err => ("", Some err)
      | None => (qp_buffer w, None)
      end
  end.

(** [exec.Command]: the subprocess this invocation will turn out to be. *)
Definition Command (name : string) (args : list string) : M Subprocess :=
  fun w => (sendmail_runs w (length (trace w)), w).

(** The body of [SendMail]; the value returned is Go's [error]. *)
Definition SendMail_body (addr subject textstr htmlstr : string) : M (option error) :=
  if String.eqb addr "" then
    let e := ErrorString "Empty recipient address, is '$LOGNAME' set?" in
    Printf (Error e +:+ nl) ;;;
    ret (Some e)
  else
    let (text, err) := toQuotedPrintable textstr in
    match err with
    | Some err => ret (Some err)
    | None =>
    let (html, err) := toQuotedPrintable (UnescapeString htmlstr) in
    match err with
    | Some err => ret (Some err)
    | None =>
    let x := {| To := addr; From := "user@rss2email.invalid";
                Text := text; HTML := html; Subject := subject |} in
    let buf := Execute x in
    sendmail <- Command "/usr/sbin/sendmail" ["-f"; addr; addr] ;;
    match stdin_pipe_err sendmail with
    | Some err =>
        Printf ("Error sending email: " +:+ Error err +:+ nl) ;;;
        ret (Some err)
    | None =>
    match stdout_pipe_err sendmail with
    | Some err =>
        Printf ("Error sending email: " +:+ Error err +:+ nl) ;;;
        ret (Some err)
    | None =>
    (* sendmail.Start(): its result is dropped *)
    match write_err sendmail with
    | Some err =>
        Printf ("Failed to write to sendmail pipe: " +:+ Error err +:+ nl) ;;;
        ret (Some err)
    | None =>
    (* stdin.Close() *)
    let (out, err) := read_out sendmail in
    match err with
    | Some err =>
        Printf ("Error reading mail output: " +:+ Error err +:+ nl) ;;;
        ret None
    | None =>
    v <- get_VERBOSE ;;
    when v (Printf (out +:+ nl)) ;;;
    match wait_err sendmail with
    | Some err =>
        Printf ("Waiting for process to terminate failed: " +:+ Error err +:+ nl) ;;;
        ret None
    | None => ret None
    end end end end end end end.

(** [SendMail], with its return recorded. *)
Definition SendMail (addr subject textstr htmlstr : string) : M (option error) :=
  r <- SendMail_body addr subject textstr htmlstr ;;
  record (CallSendMail addr subject textstr htmlstr r) ;;;
  ret r.

(** [http.Client]: the exchange this request will turn out to be. *)
Definition RoundTrip (url : string) : M Exchange :=
  fun w => (network w (length (trace w)) url, w).

(** [FetchFeed] fetches a feed from the remote URL. *)
Definition FetchFeed (url : string) : M (string * option error) :=
  record (CallFetchFeed url) ;;;
  ex <- RoundTrip url ;;
  match new_request_err ex with
  | Some err => ret ("", Some err)
  | None =>
      match do_err ex with
      | Some err => ret ("", Some err)
      | None =>
          let (output, err) := read_body ex in
          match err with
          | Some err => ret ("", Some err)
          | None => ret (output, None)
          end
      end
  end.

(** [HasSeen] returns true if this feed entry was emailed before. *)
Definition HasSeen (item : Item) : M bool :=
  let sha := GUID2Hash (GUID item) in
  home <- Getenv "HOME" ;;
  err <- Stat ((home +:+ "/.rss2email/seen/") +:+ sha) ;;
  if IsNotExist err then ret false else ret true.

(** [RecordSeen] updates the state to record the GUID as seen. *)
Definition RecordSeen (item : Item) : M unit :=
  home <- Getenv "HOME" ;;
  let dir := home +:+ "/.rss2email/seen" in
  _ <- MkdirAll dir ;;
  let d1 := Link item in
  let sha := GUID2Hash (GUID item) in
  werr <- WriteFile ((dir +:+ "/") +:+ sha) d1 ;;
  (* [_ = ioutil.WriteFile(...)]: the error goes to the blank identifier
     and is kept in the recorded call only *)
  record (CallRecordSeen (GUID item) (Link item) werr).

(** The body of the loop over [feed.Items] in [ProcessURL]. *)
Definition ProcessItem (i : Item) : M unit :=
  seen <- HasSeen i ;;
  if negb seen then
    v <- get_VERBOSE ;;
    when v (Printf ("New item: " +:+ GUID i +:+ nl)) ;;;
    let text := HTML2Text (Content i) in
    logname <- Getenv "LOGNAME" ;;
    err <- SendMail logname (Title i) text (Content i) ;;
    match err with
    | None => RecordSeen i
    | Some _ => ret tt
    end
  else ret tt.

(** [ProcessURL] fetches the contents of a URL and processes each feed
    item found in it. *)
Definition ProcessURL (input : string) : M unit :=
  v <- get_VERBOSE ;;
  when v (Printf ("Fetching " +:+ input +:+ nl)) ;;;
  r <- FetchFeed input ;;
  match snd r with
  | Some err =>
      Printf ("Error processing " +:+ input +:+ " - " +:+ Error err +:+ nl)
  | None =>
      let (feed, err) := ParseString (fst r) in
      match err with
      | Some err =>
          Printf ("Error parsing " +:+ input +:+ " contents: " +:+ Error err +:+ nl)
      | None =>
          v <- get_VERBOSE ;;
          when v (Printf ("Found " +:+ pretty (length (Items feed)) +:+ " entries" +:+ nl)) ;;;
          for_range (Items feed) ProcessItem
      end
  end.

(** The values of the two flags once [flag.Parse] has returned.  On a
    command line it rejects, [flag.Parse] itself ends the process (with
    status 2) and nothing of what follows is run. *)
Record Flags := { verbose : bool; showver : bool }.

(** The body of the loop over the lines of the feed list in [main]. *)
Definition ProcessLine (tmp : string) : M unit :=
  let tmp := TrimSpace tmp in
  if negb (String.eqb tmp "") && negb (HasPrefix tmp "#")
  then ProcessURL tmp
  else ret tt.

(** [main] from the return of [flag.Parse] on (lines 314 to 347), given
    the values of the flags; the value returned is the exit status of the
    process: the argument of [os.Exit], or 0 when [main] returns.  The
    loop ends when [scanner.Scan] returns false; [scanner.Err] is not
    looked at. *)
Definition main (flags : Flags) : M Z :=
  if showver flags then
    Printf ("rss2email " +:+ version +:+ nl) ;;;
    ret 0
  else
    set_VERBOSE (verbose flags) ;;;
    home <- Getenv "HOME" ;;
    let path := home +:+ "/.rss2email/feeds" in
    r <- Open path ;;
    match snd r with
    | Some err =>
        Printf ("Error opening " +:+ path +:+ " - " +:+ Error err +:+ nl) ;;;
        ret 0
    | None =>
        for_range (ScanLines (fst r)) ProcessLine ;;;
        ret 0
    end.

End Program.

(** ** Vocabulary of the statements *)

Definition is_byte (v : Z) : Prop := 0 <= v < 256.

(** The path of the marker of an entry: what [HasSeen] hands to [os.Stat]. *)
Definition marker_path (w : World) (i : Item) : string :=
  (default "" (environ w !! "HOME") +:+ "/.rss2email/seen/") +:+ GUID2Hash (GUID i).

(** The directory of the markers: what [RecordSeen] hands to
    [os.MkdirAll]. *)
Definition seen_dir (w : World) : string :=
  default "" (environ w !! "HOME") +:+ "/.rss2email/seen".

(** The path of the feed list: what [main] hands to [os.Open]. *)
Definition feeds_path (w : World) : string :=
  default "" (environ w !! "HOME") +:+ "/.rss2email/feeds".

(** The store after [os.MkdirAll], and after [ioutil.WriteFile] with the
    error it returns. *)
Definition mkdir_fs (path : string) (f : FileSystem) : FileSystem :=
  if decide (path ∈ dirs f) then f
  else if decide (is_Some (files f !! path)) then f
  else if decide (path ∈ readonly f) then f
  else with_dirs ({[path]} ∪ dirs f) f.

Definition write_fs (filename data : string) (f : FileSystem) : FileSystem :=
  if decide (filename ∈ readonly f) then f
  else if decide (filename ∈ dirs f) then f
  else if parent_exists f filename
  then with_files
         (<[filename := match short_write f !! filename with
                        | Some n => substring 0 n data
                        | None => data
                        end]> (files f)) f
  else f.

Definition write_error (filename : string) (f : FileSystem) : option error :=
  if decide (filename ∈ readonly f) then Some (PathError "open" filename EACCES)
  else if decide (filename ∈ dirs f) then Some (PathError "open" filename EISDIR)
  else if parent_exists f filename
  then match short_write f !! filename with
       | Some _ => Some (PathError "write" filename ENOSPC)
       | None => None
       end
  else Some (PathError "open" filename ENOENT).

(** The store [RecordSeen] leaves, and the error of its write. *)
Definition marker_fs (w : World) (i : Item) : FileSystem :=
  write_fs (marker_path w i) (Link i) (mkdir_fs (seen_dir w) (fs w)).

Definition marker_werr (w : World) (i : Item) : option error :=
  write_error (marker_path w i) (mkdir_fs (seen_dir w) (fs w)).

(** The URLs handed to [FetchFeed], in order. *)
Fixpoint fetched (t : list Event) : list string :=
  match t with
  | [] => []
  | CallFetchFeed url :: t' => url :: fetched t'
  | _ :: t' => fetched t'
  end.

(** The calls a computation adds to the trace of the world it starts in. *)
Definition events_of {A} (m : M A) (w : World) : list Event :=
  drop (length (trace w)) (trace (exec m w)).

(** A call that failed neither to deliver nor to persist. *)
Definition no_failure (e : Event) : Prop :=
  match e with
  | CallFetchFeed _ => True
  | CallSendMail _ _ _ _ r => r = None
  | CallRecordSeen _ _ werr => werr = None
  end.

Definition is_SendMail (e : Event) : bool :=
  match e with
  | CallSendMail _ _ _ _ _ => true
  | _ => false
  end.

(** The lines of the feed list that [main] keeps, from the trimmed line. *)
Definition kept (tmp : string) : bool :=
  negb (String.eqb tmp "") && negb (HasPrefix tmp "#").

(** [w'] is [w] later on: the same environment and the same unreadable
    paths, no file or directory lost, calls only added. *)
Record later (w w' : World) : Prop := {
  later_environ : environ w' = environ w;
  later_noaccess : noaccess (fs w') = noaccess (fs w);
  later_files : forall p, is_Some (files (fs w) !! p) -> is_Some (files (fs w') !! p);
  later_dirs : dirs (fs w) ⊆ dirs (fs w');
  later_trace : trace w `prefix_of` trace w'
}.

(** ** A sample instantiation, for the examples *)

(** A toy feed format: one GUID per line. *)
Definition sample_item (g : string) : Item :=
  {| GUID := g; Link := "https://example.com/" +:+ g; Title := "About " +:+ g;
     Content := "<p>" +:+ g +:+ "</p>" |}.

Definition sample_parse (txt : string) : Feed * option error :=
  match ScanLines txt with
  | [] => ({| Items := [] |}, Some (ErrorString "Failed to detect feed type"))
  | guids => ({| Items := map sample_item guids |}, None)
  end.

Definition sample_collaborators : Collaborators :=
  {| ParseString := sample_parse;
     HTML2Text := fun s => s;
     UnescapeString := fun s => s;
     quotedprintable := fun s =>
       {| qp_write_err := None; qp_close_err := None; qp_buffer := s |} |}.

Definition exchange_ok (body : string) : Exchange :=
  {| new_request_err := None; do_err := None; read_body := (body, None) |}.

Definition exchange_refused : Exchange :=
  {| new_request_err := None;
     do_err := Some (ErrorString "dial tcp: connection refused");
     read_body := ("", None) |}.

Definition subprocess_ok : Subprocess :=
  {| stdin_pipe_err := None; stdout_pipe_err := None; start_err := None;
     write_err := None; read_out := ("", None); wait_err := None |}.

(** [sendmail] exits with status 1. *)
Definition subprocess_exit_1 : Subprocess :=
  {| stdin_pipe_err := None; stdout_pipe_err := None; start_err := None;
     write_err := None; read_out := ("", None);
     wait_err := Some (ErrorString "exit status 1") |}.

(** The pipe to [sendmail] breaks while the message is written. *)
Definition subprocess_broken_pipe : Subprocess :=
  {| stdin_pipe_err := None; stdout_pipe_err := None; start_err := None;
     write_err := Some (ErrorString "write |1: broken pipe");
     read_out := ("", None); wait_err := None |}.

Definition sample_network (n : nat) (url : string) : Exchange :=
  if String.eqb url "https://example.com/feed" then exchange_ok ("a" +:+ nl +:+ "b" +:+ nl)
  else if String.eqb url "https://example.com/empty" then exchange_ok ""
  else exchange_refused.

Definition sample_feeds : string :=
  "# my feeds" +:+ nl +:+ nl +:+ "   " +:+ nl +:+
  "  https://example.com/feed " +:+ nl +:+
  "https://example.org/down" +:+ nl +:+
  "https://example.com/feed" +:+ nl.

Definition sample_fs : FileSystem :=
  {| files := {[ "/home/u/.rss2email/feeds" := sample_feeds ]};
     dirs := ∅; noaccess := ∅; readonly := ∅; short_write := ∅; short_read := ∅ |}.

Definition sample_world : World :=
  {| VERBOSE := false;
     environ := {[ "HOME" := "/home/u"; "LOGNAME" := "u" ]};
     fs := sample_fs;
     network := sample_network;
     sendmail_runs := fun _ => subprocess_ok;
     stdout := [];
     trace := [] |}.

Definition with_sendmail_runs (r : nat -> Subprocess) (w : World) : World :=
  {| VERBOSE := VERBOSE w; environ := environ w; fs := fs w; network := network w;
     sendmail_runs := r; stdout := stdout w; trace := trace w |}.

Definition item_a : Item := sample_item "a".

(** The marker of [item_a] cannot be read: [os.Stat] fails on it with an
    error that is not "not exist". *)
Definition world_noaccess : World :=
  with_fs {| files := files sample_fs; dirs := ∅;
             noaccess := {[ marker_path sample_world item_a ]};
             readonly := ∅; short_write := ∅; short_read := ∅ |} sample_world.

(** The marker of [item_a] cannot be written. *)
Definition world_readonly : World :=
  with_fs {| files := files sample_fs; dirs := ∅; noaccess := ∅;
             readonly := {[ marker_path sample_world item_a ]};
             short_write := ∅; short_read := ∅ |} sample_world.

(** No feed list. *)
Definition world_nofeeds : World :=
  with_fs {| files := ∅; dirs := ∅; noaccess := ∅; readonly := ∅;
             short_write := ∅; short_read := ∅ |} sample_world.

Definition sample_flags : Flags := {| verbose := false; showver := false |}.

(** A line of [MaxScanTokenSize] bytes, and a feed list that has a URL
    after such a line. *)
Definition long_line : string :=
  string_of_list_ascii (replicate (N.to_nat MaxScanTokenSize) "x"%char).

Definition long_feeds : string :=
  long_line +:+ nl +:+ "https://example.com/feed" +:+ nl.

(** The marker of [item_a] opens for writing and the write then fails,
    before any byte has reached the file. *)
Definition world_short_write : World :=
  with_fs {| files := files sample_fs; dirs := ∅; noaccess := ∅; readonly := ∅;
             short_write := {[ marker_path sample_world item_a := 0%nat ]};
             short_read := ∅ |} sample_world.

(** The feed list holds one URL, and reading it fails after twelve
    bytes. *)
Definition world_short_read : World :=
  with_fs {| files := {[ "/home/u/.rss2email/feeds" := "https://example.com/feed" +:+ nl ]};
             dirs := ∅; noaccess := ∅; readonly := ∅; short_write := ∅;
             short_read := {[ "/home/u/.rss2email/feeds" := 12%nat ]} |} sample_world.

Definition world_long_line : World :=
  with_fs {| files := {[ "/home/u/.rss2email/feeds" := long_feeds ]};
             dirs := ∅; noaccess := ∅; readonly := ∅;
             short_write := ∅; short_read := ∅ |} sample_world.


(** Every [sendmail] exits with status 1. *)
Definition world_exit_1 : World :=
  with_sendmail_runs (fun _ => subprocess_exit_1) sample_world.

(** The pipe of every [sendmail] breaks. *)
Definition world_broken_pipe : World :=
  with_sendmail_runs (fun _ => subprocess_broken_pipe) sample_world.

Definition sample_url : string := "https://example.com/feed".


(** ** Vocabulary of the further properties *)

(** [s] begins, or ends, with a white-space rune. *)
Definition leading_space (s : string) : bool :=
  match strip_first space_encodings s with Some _ => true | None => false end.

Definition trailing_space (s : string) : bool :=
  match strip_first (map String.rev space_encodings) (String.rev s) with
  | Some _ => true
  | None => false
  end.

(** Two worlds that differ at most in the verbosity and in the output. *)
Record same_but_output (w1 w2 : World) : Prop := {
  sbo_environ : environ w1 = environ w2;
  sbo_fs : fs w1 = fs w2;
  sbo_network : network w1 = network w2;
  sbo_sendmail : sendmail_runs w1 = sendmail_runs w2;
  sbo_trace : trace w1 = trace w2
}.

Definition is_RecordSeen (e : Event) : bool :=
  match e with
  | CallRecordSeen _ _ _ => true
  | _ => false
  end.

Section Calls.

Context `{C : Collaborators}.

(** What [SendMail] returns, from the subprocess it gets: the first of the
    failures it returns on. *)
Definition SendMail_returns (addr textstr htmlstr : string) (p : Subprocess)
  : option error :=
  if String.eqb addr "" then
    Some (ErrorString "Empty recipient address, is '$LOGNAME' set?")
  else
    match snd (toQuotedPrintable textstr) with
    | Some err => Some err
    | None =>
        match snd (toQuotedPrintable (UnescapeString htmlstr)) with
        | Some err => Some err
        | None =>
            match stdin_pipe_err p with
            | Some err => Some err
            | None =>
                match stdout_pipe_err p with
                | Some err => Some err
                | None => write_err p
                end
            end
        end
    end.

(** The calls one entry may give rise to, mailed to [addr]: none (it was
    seen), a [SendMail] that failed, or a [SendMail] that returned nil
    followed at once by the [RecordSeen] of the same entry. *)
Inductive item_calls (addr : string) (i : Item) : list Event -> Prop :=
| calls_skipped : item_calls addr i []
| calls_failed (e : error) :
    item_calls addr i
      [CallSendMail addr (Title i) (HTML2Text (Content i)) (Content i) (Some e)]
| calls_delivered (werr : option error) :
    item_calls addr i
      [CallSendMail addr (Title i) (HTML2Text (Content i)) (Content i) None;
       CallRecordSeen (GUID i) (Link i) werr].

(** The calls of a pass over the entries of a feed, in feed order. *)
Inductive feed_calls (addr : string) : list Item -> list Event -> Prop :=
| feed_calls_nil : feed_calls addr [] []
| feed_calls_cons (i : Item) (items : list Item) (evs1 evs2 : list Event) :
    item_calls addr i evs1 -> feed_calls addr items evs2 ->
    feed_calls addr (i :: items) (evs1 ++ evs2).

End Calls.

(** Verbose, otherwise as [sample_world]. *)
Definition world_verbose : World := with_VERBOSE true sample_world.

(** No [LOGNAME] in the environment. *)
Definition world_no_logname : World :=
  {| VERBOSE := false;
     environ := {[ "HOME" := "/home/u" ]};
     fs := sample_fs;
     network := sample_network;
     sendmail_runs := fun _ => subprocess_ok;
     stdout := [];
     trace := [] |}.


(** A call of a run that has no recipient: a fetch, or a [SendMail] to
    the empty address refused for that reason; never a [RecordSeen]. *)
Definition no_recipient_call (e : Event) : Prop :=
  match e with
  | CallFetchFeed _ => True
  | CallSendMail addr _ _ _ r =>
      addr = "" /\
      r = Some (ErrorString "Empty recipient address, is '$LOGNAME' set?")
  | CallRecordSeen _ _ _ => False
  end.




(** A [sendmail] with which nothing goes wrong. *)
Definition clean (p : Subprocess) : Prop :=
  stdin_pipe_err p = None /\ stdout_pipe_err p = None /\ write_err p = None /\
  snd (read_out p) = None /\ wait_err p = None.

(** * Properties *)

(** ** Test vectors *)

Example GUID2Hash_empty :
  GUID2Hash "" = "da39a3ee5e6b4b0d3255bfef95601890afd80709".
Proof. vm_compute. reflexivity. Qed.

Example GUID2Hash_abc :
  GUID2Hash "abc" = "a9993e364706816aba3e25717850c26c9cd0d89d".
Proof. vm_compute. reflexivity. Qed.

Example GUID2Hash_two_blocks :
  GUID2Hash "abcdbcdecdefdefgefghfghighijhijkijkljklmklmnlmnomnopnopq"
  = "84983e441c3bd26ebaae4aa1f95129e5e54670f1".
Proof. vm_compute. reflexivity. Qed.

Example TrimSpace_url :
  TrimSpace ("  https://example.com/feed" +:+ string_of_codes [9; 13]%nat)
  = "https://example.com/feed".
Proof. reflexivity. Qed.

Example TrimSpace_blank : TrimSpace "   " = "".
Proof. reflexivity. Qed.

Example TrimSpace_nbsp :
  TrimSpace (string_of_codes [194; 160; 35; 226; 128; 137]%nat) = "#".
Proof. reflexivity. Qed.

Example ScanLines_ex :
  ScanLines ("a" +:+ string_of_codes [13; 10]%nat +:+ nl +:+ "b" +:+ nl +:+ "c")
  = ["a"; ""; "b"; "c"].
Proof. reflexivity. Qed.

(** ** The identity hasher *)

Lemma land_255_is_byte (v : Z) : is_byte (Z.land v 255).
Proof.
  unfold is_byte. change 255 with (Z.ones 8).
  rewrite Z.land_ones by lia. apply Z.mod_pos_bound. lia.
Qed.

Lemma BEPutUint32_length (v : Z) : length (SHA1.BEPutUint32 v) = 4%nat.
Proof. reflexivity. Qed.

Lemma BEPutUint32_bytes (v : Z) : Forall is_byte (SHA1.BEPutUint32 v).
Proof.
  unfold SHA1.BEPutUint32. simpl. repeat constructor; apply land_255_is_byte.
Qed.

(** The digest is 20 bytes whatever was written. *)
Lemma Sum_length (d : SHA1.digest) : length (SHA1.Sum d) = 20%nat.
Proof.
  unfold SHA1.Sum, SHA1.checkSum. cbv zeta.
  repeat rewrite length_app. repeat rewrite BEPutUint32_length. reflexivity.
Qed.

Lemma Sum_bytes (d : SHA1.digest) : Forall is_byte (SHA1.Sum d).
Proof.
  unfold SHA1.Sum, SHA1.checkSum. cbv zeta.
  repeat (apply Forall_app; split); apply BEPutUint32_bytes.
Qed.

Lemma EncodeToString_length (src : list Z) :
  String.length (Hex.EncodeToString src) = (2 * length src)%nat.
Proof.
  induction src as [|v rest IH]; simpl; [reflexivity|].
  rewrite IH. lia.
Qed.

Lemma hextable_nth (n : nat) :
  (n < 16)%nat -> In (nth n Hex.hextable "?"%char) Hex.hextable.
Proof. intros Hn. apply nth_In. exact Hn. Qed.

Lemma EncodeToString_hex (src : list Z) :
  Forall is_byte src ->
  Forall (fun c => In c Hex.hextable) (list_ascii_of_string (Hex.EncodeToString src)).
Proof.
  induction 1 as [|v rest Hv _ IH]; simpl; [constructor|].
  destruct Hv as [Hlo Hhi].
  constructor; [|constructor; [|exact IH]]; apply hextable_nth.
  - rewrite Z.shiftr_div_pow2 by lia.
    assert (0 <= v / 2 ^ 4 < 16) by (split; [apply Z.div_pos; lia | apply Z.div_lt_upper_bound; lia]).
    lia.
  - change 15 with (Z.ones 4). rewrite Z.land_ones by lia.
    pose proof (Z.mod_pos_bound v (2 ^ 4)). lia.
Qed.

(** C7. For every string [guid], the empty one included, [GUID2Hash guid]
    is a string of 40 characters, each one of [0123456789abcdef]; it is a
    function of [guid] alone (equal inputs give equal outputs), and, taking
    no world and returning a plain string, has neither an error result nor
    an effect. *)
Theorem GUID2Hash_forty_lowercase_hex :
  forall guid : string,
    String.length (GUID2Hash guid) = 40%nat /\
    Forall (fun c => In c (list_ascii_of_string "0123456789abcdef"))
           (list_ascii_of_string (GUID2Hash guid)) /\
    (forall guid' : string, guid' = guid -> GUID2Hash guid' = GUID2Hash guid) /\
    GUID2Hash "" = "da39a3ee5e6b4b0d3255bfef95601890afd80709".
Proof.
  intros guid. split; [|split; [|split]].
  - unfold GUID2Hash. rewrite EncodeToString_length, Sum_length. reflexivity.
  - unfold GUID2Hash. apply EncodeToString_hex, Sum_bytes.
  - intros guid' ->. reflexivity.
  - vm_compute. reflexivity.
Qed.


(** ** The seen-state store *)

Lemma append_assoc (a b c : string) : (a +:+ b) +:+ c = a +:+ (b +:+ c).
Proof.
  induction a as [|x a IH]; [reflexivity|].
  change (String x ((a +:+ b) +:+ c) = String x (a +:+ (b +:+ c))).
  f_equal. exact IH.
Qed.

(** [RecordSeen] writes where [HasSeen] looks. *)
Lemma seen_dir_path (home sha : string) :
  ((home +:+ "/.rss2email/seen") +:+ "/") +:+ sha
  = (home +:+ "/.rss2email/seen/") +:+ sha.
Proof. rewrite !append_assoc. reflexivity. Qed.

Ltac run := unfold bind, ret, when, Getenv, get_VERBOSE, Printf, record; simpl.

Lemma Stat_world (p : string) (w : World) : exec (Stat p) w = w.
Proof. unfold exec, Stat. repeat case_match; reflexivity. Qed.

Lemma HasSeen_run (i : Item) (w : World) :
  HasSeen i w = (negb (IsNotExist (eval (Stat (marker_path w i)) w)), w).
Proof.
  unfold HasSeen, marker_path, eval. run.
  unfold Stat. repeat case_match; simplify_eq; simpl in *; congruence.
Qed.

(** What [os.Stat] answers, from the state of the store. *)
Lemma Stat_not_exist (p : string) (w : World) :
  IsNotExist (eval (Stat p) w)
  = bool_decide ((p ∉ noaccess (fs w)) /\ (files (fs w) !! p) = None
                 /\ (p ∉ dirs (fs w))).
Proof.
  unfold eval, Stat.
  destruct (decide (p ∈ noaccess (fs w))) as [Hn|Hn]; simpl.
  - symmetry. apply bool_decide_eq_false. tauto.
  - destruct (files (fs w) !! p) as [d|] eqn:Hf; simpl.
    + symmetry. apply bool_decide_eq_false. intros (_ & ? & _). discriminate.
    + destruct (decide (p ∈ dirs (fs w))) as [Hd|Hd]; simpl; symmetry.
      * apply bool_decide_eq_false. tauto.
      * apply bool_decide_eq_true. tauto.
Qed.

Lemma HasSeen_ext (i : Item) (w w' : World) :
  fs w' = fs w -> environ w' = environ w ->
  eval (HasSeen i) w' = eval (HasSeen i) w.
Proof.
  intros Hfs Henv. unfold eval. rewrite !HasSeen_run. simpl.
  unfold marker_path, eval, Stat. rewrite Hfs, Henv.
  repeat case_match; simplify_eq; reflexivity.
Qed.

Lemma HasSeen_world (i : Item) (w : World) : exec (HasSeen i) w = w.
Proof. unfold exec. now rewrite HasSeen_run. Qed.

Lemma HasSeen_marker (i : Item) (w : World) :
  is_Some (files (fs w) !! marker_path w i) -> eval (HasSeen i) w = true.
Proof.
  intros [d Hd]. unfold eval. rewrite HasSeen_run. simpl.
  rewrite Stat_not_exist. apply negb_true_iff, bool_decide_eq_false.
  intros (_ & Hnone & _). congruence.
Qed.

Lemma with_fs_same (w : World) : with_fs (fs w) w = w.
Proof. destruct w; reflexivity. Qed.

Lemma MkdirAll_world (path : string) (w : World) :
  exec (MkdirAll path) w = with_fs (mkdir_fs path (fs w)) w.
Proof.
  unfold exec, MkdirAll, mkdir_fs.
  repeat case_decide; simpl; now rewrite ?with_fs_same.
Qed.

Lemma WriteFile_run (filename data : string) (w : World) :
  WriteFile filename data w
  = (write_error filename (fs w), with_fs (write_fs filename data (fs w)) w).
Proof.
  unfold WriteFile, write_fs, write_error.
  case_decide; [now rewrite with_fs_same|].
  case_decide; [now rewrite with_fs_same|].
  destruct (parent_exists (fs w) filename); [|now rewrite with_fs_same].
  destruct (short_write (fs w) !! filename); reflexivity.
Qed.

(** A name without a slash has no directory part. *)
Lemma parent_no_slash (name : string) :
  Forall (fun c => c <> "/"%char) (list_ascii_of_string name) -> parent name = None.
Proof.
  induction name as [|c name IH]; [reflexivity|].
  simpl. intros H. apply Forall_cons in H as [Hc H]. rewrite (IH H).
  destruct (Ascii.eqb_spec c "/"%char); [contradiction | reflexivity].
Qed.

Lemma parent_append (d name : string) :
  parent name = None -> parent (d +:+ String "/"%char name) = Some d.
Proof.
  intros Hn. induction d as [|c d IH].
  - change ("" +:+ String "/"%char name) with (String "/"%char name).
    simpl. now rewrite Hn.
  - change (String c d +:+ String "/"%char name)
      with (String c (d +:+ String "/"%char name)).
    simpl. now rewrite IH.
Qed.

Lemma GUID2Hash_no_slash (guid : string) : parent (GUID2Hash guid) = None.
Proof.
  apply parent_no_slash.
  assert (H : Forall (fun c => In c Hex.hextable)
                (list_ascii_of_string (GUID2Hash guid))).
  { unfold GUID2Hash. apply EncodeToString_hex, Sum_bytes. }
  eapply Forall_impl; [exact H|].
  intros c Hc. simpl in Hc.
  repeat (destruct Hc as [<-|Hc]; [discriminate|]). destruct Hc.
Qed.

(** The marker of an entry is an entry of the directory of the markers. *)
Lemma marker_parent (w : World) (i : Item) :
  parent (marker_path w i) = Some (seen_dir w).
Proof.
  unfold marker_path, seen_dir. rewrite <- seen_dir_path, append_assoc.
  change ("/" +:+ GUID2Hash (GUID i)) with (String "/"%char (GUID2Hash (GUID i))).
  apply parent_append, GUID2Hash_no_slash.
Qed.

Lemma seen_dir_nonempty (w : World) : seen_dir w <> "".
Proof.
  unfold seen_dir. intros E. apply (f_equal String.length) in E.
  revert E. generalize (default "" (environ w !! "HOME")). intros h.
  induction h as [|c h IH]; simpl; [discriminate|]. discriminate.
Qed.

(** [RecordSeen], in one piece. *)
Lemma RecordSeen_world (i : Item) (w : World) :
  RecordSeen i w
  = (tt, with_trace (trace w ++ [CallRecordSeen (GUID i) (Link i) (marker_werr w i)])
           (with_fs (marker_fs w i) w)).
Proof.
  unfold RecordSeen, marker_werr, marker_fs, marker_path, seen_dir. run.
  rewrite seen_dir_path.
  set (home := default "" (environ w !! "HOME")).
  set (p := (home +:+ "/.rss2email/seen/") +:+ GUID2Hash (GUID i)).
  set (dir := home +:+ "/.rss2email/seen").
  destruct (MkdirAll dir w) as [e w1] eqn:E.
  assert (Hw1 : w1 = with_fs (mkdir_fs dir (fs w)) w).
  { rewrite <- MkdirAll_world. unfold exec. now rewrite E. }
  subst w1. rewrite WriteFile_run. reflexivity.
Qed.

(** The marker write goes through exactly when the path may be written and
    the directory is there, made by [os.MkdirAll] if need be, and the
    write itself does not fail. *)
Lemma marker_parent_exists (w : World) (i : Item) :
  parent_exists (mkdir_fs (seen_dir w) (fs w)) (marker_path w i)
  = bool_decide (seen_dir w ∈ dirs (fs w) \/
                 (files (fs w) !! seen_dir w = None /\ seen_dir w ∉ readonly (fs w))).
Proof.
  unfold parent_exists. rewrite marker_parent.
  apply bool_decide_ext. pose proof (seen_dir_nonempty w) as Hne.
  unfold mkdir_fs. repeat case_decide; simpl;
    rewrite ?elem_of_union, ?elem_of_singleton;
    repeat match goal with
           | H : is_Some _ |- _ => apply not_eq_None_Some in H
           | H : ~ is_Some _ |- _ => apply eq_None_not_Some in H
           end; tauto.
Qed.

Lemma mkdir_fs_fields (path : string) (f : FileSystem) :
  files (mkdir_fs path f) = files f /\ noaccess (mkdir_fs path f) = noaccess f /\
  readonly (mkdir_fs path f) = readonly f /\
  short_write (mkdir_fs path f) = short_write f /\
  short_read (mkdir_fs path f) = short_read f /\
  dirs f ⊆ dirs (mkdir_fs path f) /\ dirs (mkdir_fs path f) ⊆ {[path]} ∪ dirs f.
Proof.
  unfold mkdir_fs. repeat case_decide; simpl; repeat split; try reflexivity;
    intros x; rewrite ?elem_of_union; tauto.
Qed.

Lemma write_fs_fields (filename data : string) (f : FileSystem) :
  dirs (write_fs filename data f) = dirs f /\
  noaccess (write_fs filename data f) = noaccess f /\
  readonly (write_fs filename data f) = readonly f /\
  short_write (write_fs filename data f) = short_write f /\
  short_read (write_fs filename data f) = short_read f.
Proof.
  unfold write_fs. case_decide; [auto|]. case_decide; [auto|].
  destruct (parent_exists f filename); simpl; auto.
Qed.

(** What a write does to the files. *)
Lemma write_fs_files (filename data : string) (f : FileSystem) :
  (write_error filename f = None ->
   files (write_fs filename data f) = <[filename := data]> (files f)) /\
  (forall q, q <> filename -> files (write_fs filename data f) !! q = files f !! q) /\
  (forall q, is_Some (files f !! q) -> is_Some (files (write_fs filename data f) !! q)) /\
  (files f !! filename = None -> files f ⊆ files (write_fs filename data f)).
Proof.
  unfold write_fs, write_error. case_decide.
  { repeat split; auto; discriminate. }
  case_decide.
  { repeat split; auto; discriminate. }
  destruct (parent_exists f filename); simpl.
  2:{ repeat split; auto; discriminate. }
  split; [|split; [|split]].
  - destruct (short_write f !! filename); [discriminate | reflexivity].
  - intros q Hq. now apply lookup_insert_ne.
  - intros q Hq. destruct (decide (filename = q)) as [->|Hne].
    + rewrite lookup_insert_eq. eauto.
    + now rewrite lookup_insert_ne.
  - intros Hnone. now apply insert_subseteq.
Qed.

(** The whole effect of [RecordSeen]. *)
Lemma RecordSeen_run (i : Item) (w : World) :
  let p := marker_path w i in
  let w' := exec (RecordSeen i) w in
  VERBOSE w' = VERBOSE w /\ environ w' = environ w /\
  network w' = network w /\ sendmail_runs w' = sendmail_runs w /\
  stdout w' = stdout w /\
  noaccess (fs w') = noaccess (fs w) /\ readonly (fs w') = readonly (fs w) /\
  dirs (fs w) ⊆ dirs (fs w') /\
  dirs (fs w') ⊆ {[seen_dir w]} ∪ dirs (fs w) /\
  ((marker_werr w i = None -> files (fs w') = <[p := Link i]> (files (fs w))) /\
   (forall q, q <> p -> files (fs w') !! q = files (fs w) !! q) /\
   (forall q, is_Some (files (fs w) !! q) -> is_Some (files (fs w') !! q)) /\
   (files (fs w) !! p = None -> files (fs w) ⊆ files (fs w'))) /\
  trace w' = trace w ++ [CallRecordSeen (GUID i) (Link i) (marker_werr w i)].
Proof.
  intros p w'. subst p w'. unfold exec. rewrite RecordSeen_world. simpl.
  unfold marker_fs, marker_werr.
  destruct (mkdir_fs_fields (seen_dir w) (fs w)) as (Mf & Mn & Mr & _ & _ & Md1 & Md2).
  destruct (write_fs_fields (marker_path w i) (Link i) (mkdir_fs (seen_dir w) (fs w)))
    as (Wd & Wn & Wr & _ & _).
  pose proof (write_fs_files (marker_path w i) (Link i) (mkdir_fs (seen_dir w) (fs w)))
    as Wf.
  rewrite Mf in Wf. rewrite Wd, Wn, Wr, Mn, Mr.
  repeat split; try reflexivity; try assumption; apply Wf.
Qed.




(** The store after [RecordSeen]. *)
Lemma RecordSeen_fs (i : Item) (w : World) : fs (exec (RecordSeen i) w) = marker_fs w i.
Proof. unfold exec. rewrite RecordSeen_world. reflexivity. Qed.





(** ** Delivery *)

Section Delivery.

Context `{C : Collaborators}.

Lemma with_stdout_nil (w : World) : with_stdout (stdout w ++ []) w = w.
Proof. rewrite app_nil_r. destruct w; reflexivity. Qed.

(** [SendMail] prints, and records its return; nothing else changes. *)
Lemma SendMail_run (addr subject textstr htmlstr : string) (w : World) :
  exists (r : option error) (out : list string),
    SendMail addr subject textstr htmlstr w
    = (r, with_trace (trace w ++ [CallSendMail addr subject textstr htmlstr r])
            (with_stdout (stdout w ++ out) w)).
Proof.
  unfold SendMail, SendMail_body, Command. run.
  repeat (case_match; simpl); unfold ret in *; simplify_eq; simpl;
    first [ eexists _, []; simpl; rewrite ?app_nil_r, <- ?app_assoc; simpl;
            repeat match goal with w : World |- _ => destruct w end; reflexivity
          | eexists _, [_]; simpl; rewrite ?app_nil_r, <- ?app_assoc; simpl;
            repeat match goal with w : World |- _ => destruct w end; reflexivity
          | eexists _, [_; _]; simpl; rewrite ?app_nil_r, <- ?app_assoc; simpl;
            repeat match goal with w : World |- _ => destruct w end; reflexivity ].
Qed.

Lemma with_stdout_app (o1 o2 : list string) (w : World) :
  with_stdout (stdout (with_stdout (stdout w ++ o1) w) ++ o2)
              (with_stdout (stdout w ++ o1) w)
  = with_stdout (stdout w ++ (o1 ++ o2)) w.
Proof. destruct w; simpl. unfold with_stdout; simpl. now rewrite app_assoc. Qed.

(** An entry found seen is skipped: nothing at all happens. *)
Lemma ProcessItem_seen (i : Item) (w : World) :
  eval (HasSeen i) w = true -> ProcessItem i w = (tt, w).
Proof.
  unfold eval. rewrite HasSeen_run. simpl. intros Hs.
  unfold ProcessItem, bind. rewrite HasSeen_run, Hs. reflexivity.
Qed.

(** An entry found unseen is mailed, and recorded when [SendMail]
    returned nil. *)
Lemma ProcessItem_unseen (i : Item) (w : World) :
  eval (HasSeen i) w = false ->
  exists (r : option error) (out : list string),
    let w1 := with_trace
                (trace w ++ [CallSendMail (default "" (environ w !! "LOGNAME"))
                               (Title i) (HTML2Text (Content i)) (Content i) r])
                (with_stdout (stdout w ++ out) w) in
    ProcessItem i w = match r with
                      | None => RecordSeen i w1
                      | Some _ => (tt, w1)
                      end.
Proof.
  unfold eval. rewrite HasSeen_run. simpl. intros Hs.
  unfold ProcessItem, bind. rewrite HasSeen_run, Hs. simpl.
  unfold get_VERBOSE, when, Getenv.
  destruct (VERBOSE w) eqn:Hv.
  - unfold Printf at 1. simpl.
    set (w0 := with_stdout (stdout w ++ ["New item: " +:+ GUID i +:+ nl]) w).
    destruct (SendMail_run (default "" (environ w !! "LOGNAME")) (Title i)
                (HTML2Text (Content i)) (Content i) w0) as (r & out & E).
    rewrite E. exists r, (["New item: " +:+ GUID i +:+ nl] ++ out).
    subst w0. rewrite with_stdout_app. simpl. destruct r; reflexivity.
  - unfold ret at 1. simpl.
    destruct (SendMail_run (default "" (environ w !! "LOGNAME")) (Title i)
                (HTML2Text (Content i)) (Content i) w) as (r & out & E).
    rewrite E. exists r, out. destruct r; reflexivity.
Qed.

Lemma later_refl (w : World) : later w w.
Proof. split; auto. Qed.

Lemma later_trans (w1 w2 w3 : World) : later w1 w2 -> later w2 w3 -> later w1 w3.
Proof.
  intros [E1 N1 F1 D1 T1] [E2 N2 F2 D2 T2]. split.
  - congruence.
  - congruence.
  - auto.
  - etransitivity; eassumption.
  - etransitivity; eassumption.
Qed.

Lemma RecordSeen_later (i : Item) (w : World) : later w (exec (RecordSeen i) w).
Proof.
  destruct (RecordSeen_run i w)
    as (_ & He & _ & _ & _ & Hn & _ & Hd & _ & (_ & _ & Hf & _) & Ht).
  split; auto.
  rewrite Ht. now apply prefix_app_r.
Qed.

Lemma ProcessItem_later (i : Item) (w : World) : later w (exec (ProcessItem i) w).
Proof.
  destruct (eval (HasSeen i) w) eqn:Hs.
  - unfold exec. rewrite ProcessItem_seen by exact Hs. apply later_refl.
  - destruct (ProcessItem_unseen i w Hs) as (r & out & E). simpl in E.
    unfold exec. rewrite E.
    set (w1 := with_trace _ _).
    assert (later w w1) as L1.
    { split; simpl; auto. now apply prefix_app_r. }
    destruct r; simpl; [exact L1|].
    eapply later_trans; [exact L1 | apply RecordSeen_later].
Qed.

Lemma for_range_cons {A} (x : A) (xs : list A) (body : A -> M unit) (w : World) :
  exec (for_range (x :: xs) body) w = exec (for_range xs body) (exec (body x) w).
Proof. unfold exec. simpl. unfold bind. destruct (body x w). reflexivity. Qed.

Lemma for_range_later {A} (body : A -> M unit) :
  (forall x w, later w (exec (body x) w)) ->
  forall xs w, later w (exec (for_range xs body) w).
Proof.
  intros Hb xs. induction xs as [|x xs IH]; intros w.
  - apply later_refl.
  - rewrite for_range_cons. eapply later_trans; [apply Hb | apply IH].
Qed.

(** A marker that answers "seen" keeps doing so. *)
Lemma HasSeen_later (i : Item) (w w' : World) :
  later w w' -> eval (HasSeen i) w = true -> eval (HasSeen i) w' = true.
Proof.
  intros [E N F D _]. unfold eval. rewrite !HasSeen_run. simpl.
  rewrite !negb_true_iff, !Stat_not_exist, !bool_decide_eq_false.
  unfold marker_path. rewrite E, N. intros Hw (Hn & Hf & Hd). apply Hw.
  split; [exact Hn|]. split.
  - destruct (files (fs w) !! _) eqn:Hl; [|reflexivity].
    destruct (F _ (ltac:(eauto) : is_Some (files (fs w) !! _))) as [d Hd'].
    rewrite Hf in Hd'. discriminate.
  - intros Hin. apply Hd, D, Hin.
Qed.

Lemma length_append (a b : string) :
  String.length (a +:+ b) = (String.length a + String.length b)%nat.
Proof.
  induction a as [|x a IH]; [reflexivity|].
  change (S (String.length (a +:+ b)) = S (String.length a + String.length b)).
  now rewrite IH.
Qed.


Lemma events_of_prefix {A} (m : M A) (w : World) (evs : list Event) :
  trace (exec m w) = trace w ++ evs -> events_of m w = evs.
Proof. intros E. unfold events_of. rewrite E. apply drop_app_length. Qed.

Lemma events_of_later {A} (m : M A) (w : World) :
  later w (exec m w) -> trace (exec m w) = trace w ++ events_of m w.
Proof.
  intros L. destruct (later_trace _ _ L) as [k Hk].
  now rewrite (events_of_prefix m w k Hk).
Qed.

(** The calls of one turn of the loop over the entries. *)
Lemma ProcessItem_events (i : Item) (w : World) :
  let w' := exec (ProcessItem i) w in
  let p := marker_path w i in
  (eval (HasSeen i) w = true /\ w' = w /\ events_of (ProcessItem i) w = [])
  \/
  (eval (HasSeen i) w = false /\
   (exists addr e,
      events_of (ProcessItem i) w
      = [CallSendMail addr (Title i) (HTML2Text (Content i)) (Content i) (Some e)]) /\
   fs w' = fs w /\ eval (HasSeen i) w' = false)
  \/
  (eval (HasSeen i) w = false /\
   exists addr werr,
     events_of (ProcessItem i) w
     = [CallSendMail addr (Title i) (HTML2Text (Content i)) (Content i) None;
        CallRecordSeen (GUID i) (Link i) werr] /\
     (werr = None ->
        files (fs w') !! p = Some (Link i) /\ eval (HasSeen i) w' = true)).
Proof.
  intros w' p. subst w'.
  destruct (eval (HasSeen i) w) eqn:Hs.
  - left. unfold exec, events_of, exec. rewrite ProcessItem_seen by exact Hs.
    simpl. rewrite drop_all. auto.
  - right. destruct (ProcessItem_unseen i w Hs) as (r & out & E). simpl in E.
    set (w1 := with_trace _ _) in E.
    assert (Hs1 : eval (HasSeen i) w1 = false).
    { rewrite <- Hs. apply HasSeen_ext; reflexivity. }
    destruct r as [e|].
    + left. split; [reflexivity|]. unfold exec at 1 2, events_of, exec.
      rewrite E. simpl. rewrite drop_app_length. eauto.
    + right. split; [reflexivity|].
      assert (Hex : exec (ProcessItem i) w = exec (RecordSeen i) w1).
      { unfold exec. now rewrite E. }
      destruct (RecordSeen_run i w1)
        as (_ & He & _ & _ & _ & _ & _ & _ & _ & (Hf & _) & Ht).
      change (marker_path w1 i) with p in Hf.
      change (files (fs w1)) with (files (fs w)) in Hf.
      eexists _, _. split.
      { apply events_of_prefix. rewrite Hex, Ht. simpl.
        rewrite <- app_assoc. reflexivity. }
      intros Hwerr. rewrite !Hex, (Hf Hwerr).
      split; [apply lookup_insert_eq|].
      apply HasSeen_marker.
      assert (Hp : marker_path (exec (RecordSeen i) w1) i = p).
      { unfold marker_path. now rewrite He. }
      rewrite Hp, (Hf Hwerr), lookup_insert_eq. eauto.
Qed.


(** ** One feed *)

Lemma FetchFeed_run (url : string) (w : World) :
  FetchFeed url w
  = (eval (FetchFeed url) w, with_trace (trace w ++ [CallFetchFeed url]) w).
Proof.
  unfold eval, FetchFeed, RoundTrip. run.
  repeat (case_match; simpl); reflexivity.
Qed.

Lemma FetchFeed_eval_ext (url : string) (w w' : World) :
  network w' = network w -> trace w' = trace w ->
  eval (FetchFeed url) w' = eval (FetchFeed url) w.
Proof.
  intros Hn Ht. unfold eval, FetchFeed, RoundTrip. run. rewrite Hn, Ht.
  repeat (case_match; simpl); simplify_eq; reflexivity.
Qed.

(** [ProcessURL], by the outcome of the fetch and of the parse. *)
Lemma ProcessURL_run (input : string) (w : World) :
  let banner := if VERBOSE w then ["Fetching " +:+ input +:+ nl] else [] in
  let wf := with_trace (trace w ++ [CallFetchFeed input])
              (with_stdout (stdout w ++ banner) w) in
  let r := eval (FetchFeed input) w in
  ProcessURL input w =
  match snd r with
  | Some err =>
      (tt, with_stdout
             (stdout wf ++ ["Error processing " +:+ input +:+ " - " +:+ Error err +:+ nl])
             wf)
  | None =>
      match ParseString (fst r) with
      | (_, Some err) =>
          (tt, with_stdout
                 (stdout wf ++ ["Error parsing " +:+ input +:+ " contents: "
                                +:+ Error err +:+ nl])
                 wf)
      | (feed, None) =>
          for_range (Items feed) ProcessItem
            (with_stdout
               (stdout wf ++ (if VERBOSE w
                              then ["Found " +:+ pretty (length (Items feed))
                                    +:+ " entries" +:+ nl]
                              else []))
               wf)
      end
  end.
Proof.
  intros banner wf r. subst banner wf r.
  unfold ProcessURL, bind, get_VERBOSE, when.
  destruct (VERBOSE w) eqn:Hv.
  - unfold Printf at 1. simpl. rewrite FetchFeed_run.
    rewrite (FetchFeed_eval_ext input w) by reflexivity. simpl.
    destruct (eval (FetchFeed input) w) as [txt [err|]]; simpl; [reflexivity|].
    destruct (ParseString txt) as [feed [err|]]; [reflexivity|].
    simpl. rewrite Hv. reflexivity.
  - unfold ret at 1. rewrite FetchFeed_run. simpl.
    destruct (eval (FetchFeed input) w) as [txt [err|]]; simpl.
    + rewrite app_nil_r. destruct w; reflexivity.
    + destruct (ParseString txt) as [feed [err|]].
      * rewrite app_nil_r. destruct w; reflexivity.
      * simpl. rewrite Hv. unfold ret at 1. rewrite !app_nil_r.
        destruct w; reflexivity.
Qed.

Lemma ProcessLine_kept (line : string) (w : World) :
  kept (TrimSpace line) = true -> ProcessLine line w = ProcessURL (TrimSpace line) w.
Proof. unfold ProcessLine, kept. intros ->. reflexivity. Qed.

Lemma ProcessLine_dropped (line : string) (w : World) :
  kept (TrimSpace line) = false -> ProcessLine line w = (tt, w).
Proof. unfold ProcessLine, kept. intros ->. reflexivity. Qed.

(** C9. [ProcessURL] returns no error (its result is the unit value, for
    every URL and world).  When the fetch fails, or the parse does, it
    prints one line naming the error and returns: the only call made is the
    fetch, the store is untouched, no entry is processed; and the loop of
    the run driver goes on with the lines that follow, from the world the
    bad feed left. *)
Theorem ProcessURL_bad_feed_is_skipped :
  forall (input : string) (w : World),
    let r := eval (FetchFeed input) w in
    let w' := exec (ProcessURL input) w in
    snd r <> None \/ snd (ParseString (fst r)) <> None ->
    eval (ProcessURL input) w = tt /\
    fs w' = fs w /\
    events_of (ProcessURL input) w = [CallFetchFeed input] /\
    stdout w'
    = stdout w ++ (if VERBOSE w then ["Fetching " +:+ input +:+ nl] else [])
        ++ [match snd r, snd (ParseString (fst r)) with
            | Some err, _ =>
                "Error processing " +:+ input +:+ " - " +:+ Error err +:+ nl
            | None, Some err =>
                "Error parsing " +:+ input +:+ " contents: " +:+ Error err +:+ nl
            | None, None => ""
            end] /\
    (forall line rest,
       TrimSpace line = input -> kept input = true ->
       exec (for_range (line :: rest) ProcessLine) w
       = exec (for_range rest ProcessLine) w').
Proof.
  intros input w r w' Hbad. subst w'.
  assert (Hrun := ProcessURL_run input w). cbv zeta in Hrun. fold r in Hrun.
  split; [destruct (eval (ProcessURL input) w); reflexivity|].
  assert (Hw : exists msg,
             ProcessURL input w
             = (tt, with_stdout
                      (stdout w ++ (if VERBOSE w then ["Fetching " +:+ input +:+ nl] else [])
                         ++ [msg])
                      (with_trace (trace w ++ [CallFetchFeed input]) w)) /\
             msg = match snd r, snd (ParseString (fst r)) with
                   | Some err, _ =>
                       "Error processing " +:+ input +:+ " - " +:+ Error err +:+ nl
                   | None, Some err =>
                       "Error parsing " +:+ input +:+ " contents: " +:+ Error err +:+ nl
                   | None, None => ""
                   end).
  { destruct (snd r) as [err|] eqn:Hr.
    - eexists. split; [|reflexivity]. rewrite Hrun. simpl.
      rewrite <- app_assoc. destruct w; reflexivity.
    - destruct (ParseString (fst r)) as [feed [err|]] eqn:Hp; simpl in *.
      + eexists. split; [|reflexivity]. rewrite Hrun. simpl.
        rewrite <- app_assoc. destruct w; reflexivity.
      + destruct Hbad as [Hbad|Hbad]; congruence. }
  destruct Hw as (msg & Hw & Hmsg). rewrite <- Hmsg.
  split; [|split; [|split]].
  - unfold exec. rewrite Hw. reflexivity.
  - apply events_of_prefix. unfold exec. rewrite Hw. reflexivity.
  - unfold exec. rewrite Hw. reflexivity.
  - intros line rest Hl Hk. rewrite for_range_cons. f_equal.
    unfold exec. rewrite ProcessLine_kept; rewrite Hl; [reflexivity | exact Hk].
Qed.

(** ** Two runs over the same feed *)

Lemma for_range_all_seen (items : list Item) (w : World) :
  (forall i, In i items -> eval (HasSeen i) w = true) ->
  for_range items ProcessItem w = (tt, w).
Proof.
  induction items as [|i items IH]; intros Hall; [reflexivity|].
  simpl. unfold bind. rewrite ProcessItem_seen by (apply Hall; now left).
  apply IH. intros j Hj. apply Hall. now right.
Qed.

Lemma events_of_for_range_cons {A} (body : A -> M unit) (x : A) (xs : list A)
      (w : World) :
  (forall y v, later v (exec (body y) v)) ->
  events_of (for_range (x :: xs) body) w
  = events_of (body x) w ++ events_of (for_range xs body) (exec (body x) w).
Proof.
  intros Hb. apply events_of_prefix. rewrite for_range_cons.
  rewrite (events_of_later (for_range xs body) (exec (body x) w))
    by (apply for_range_later; exact Hb).
  rewrite (events_of_later (body x) w) at 1 by apply Hb.
  now rewrite app_assoc.
Qed.

(** After a pass over the entries in which nothing failed, every entry
    answers "seen". *)
Lemma first_run_marks (items : list Item) (w : World) :
  Forall no_failure (events_of (for_range items ProcessItem) w) ->
  forall i, In i items ->
    eval (HasSeen i) (exec (for_range items ProcessItem) w) = true.
Proof.
  revert w. induction items as [|j items IH]; intros w Hok i Hi; [destruct Hi|].
  rewrite events_of_for_range_cons in Hok by apply ProcessItem_later.
  apply Forall_app in Hok as [Hj Hrest].
  rewrite for_range_cons.
  destruct Hi as [<-|Hi]; [|now apply IH].
  apply (HasSeen_later j (exec (ProcessItem j) w)).
  { apply for_range_later. apply ProcessItem_later. }
  destruct (ProcessItem_events j w)
    as [(Hs & Hw & _) | [(_ & (a & e & Hev) & _) | (_ & a & werr & Hev & Hm)]].
  - now rewrite Hw.
  - rewrite Hev in Hj. apply Forall_cons in Hj as [Habs _]. discriminate.
  - rewrite Hev in Hj. apply Forall_cons in Hj as [_ Hj].
    apply Forall_cons in Hj as [Hwerr _]. simpl in Hwerr.
    exact (proj2 (Hm Hwerr)).
Qed.

(** C4 (amended). A feed is fetched and parsed, and a first run over it
    fails nowhere: every [SendMail] returns nil and every marker write
    succeeds.  Then a second run over the same content, started in any
    world that has the store and the environment the first run left,
    finds every entry seen and calls nothing but the fetch: [SendMail] is
    not invoked and the store does not change. *)
Theorem second_run_delivers_nothing :
  forall (url txt : string) (feed : Feed) (w0 w2 : World),
    let w1 := exec (ProcessURL url) w0 in
    eval (FetchFeed url) w0 = (txt, None) ->
    ParseString txt = (feed, None) ->
    Forall no_failure (events_of (ProcessURL url) w0) ->
    fs w2 = fs w1 -> environ w2 = environ w1 ->
    eval (FetchFeed url) w2 = (txt, None) ->
    (forall i, In i (Items feed) -> eval (HasSeen i) w2 = true) /\
    events_of (ProcessURL url) w2 = [CallFetchFeed url] /\
    List.filter is_SendMail (events_of (ProcessURL url) w2) = [] /\
    fs (exec (ProcessURL url) w2) = fs w2.
Proof.
  intros url txt feed w0 w2 w1 Hf0 Hp Hok Hfs Henv Hf2. subst w1.
  assert (Hrun0 := ProcessURL_run url w0). cbv zeta in Hrun0.
  rewrite Hf0 in Hrun0. simpl in Hrun0. rewrite Hp in Hrun0.
  set (v0 := with_stdout _ _) in Hrun0.
  assert (Hex0 : exec (ProcessURL url) w0 = exec (for_range (Items feed) ProcessItem) v0).
  { unfold exec. now rewrite Hrun0. }
  assert (Hev0 : events_of (ProcessURL url) w0
                 = CallFetchFeed url :: events_of (for_range (Items feed) ProcessItem) v0).
  { apply events_of_prefix. rewrite Hex0.
    rewrite (events_of_later (for_range (Items feed) ProcessItem) v0)
      by (apply for_range_later, ProcessItem_later).
    subst v0. simpl. now rewrite <- app_assoc. }
  rewrite Hev0 in Hok. apply Forall_cons in Hok as [_ Hok].
  assert (Hseen : forall i, In i (Items feed) -> eval (HasSeen i) w2 = true).
  { intros i Hi. rewrite <- (first_run_marks _ v0 Hok i Hi).
    rewrite <- Hex0. apply HasSeen_ext; assumption. }
  split; [exact Hseen|].
  assert (Hrun2 := ProcessURL_run url w2). cbv zeta in Hrun2.
  rewrite Hf2 in Hrun2. simpl in Hrun2. rewrite Hp in Hrun2.
  set (v2 := with_stdout _ _) in Hrun2.
  rewrite for_range_all_seen in Hrun2.
  2:{ intros i Hi. rewrite <- (Hseen i Hi). apply HasSeen_ext; reflexivity. }
  assert (Hev2 : events_of (ProcessURL url) w2 = [CallFetchFeed url]).
  { apply events_of_prefix. unfold exec. rewrite Hrun2. reflexivity. }
  rewrite Hev2. repeat split.
  unfold exec. rewrite Hrun2. reflexivity.
Qed.

(** ** The run driver *)

Lemma fetched_app (t1 t2 : list Event) : fetched (t1 ++ t2) = fetched t1 ++ fetched t2.
Proof.
  induction t1 as [|e t1 IH]; [reflexivity|].
  destruct e; simpl; now rewrite IH.
Qed.

Lemma ProcessItem_fetched (i : Item) (w : World) :
  fetched (events_of (ProcessItem i) w) = [].
Proof.
  destruct (ProcessItem_events i w)
    as [(_ & _ & Hev) | [(_ & (a & e & Hev) & _) | (_ & a & werr & Hev & _)]];
    rewrite Hev; reflexivity.
Qed.

Lemma for_range_items_fetched (items : list Item) (w : World) :
  fetched (events_of (for_range items ProcessItem) w) = [].
Proof.
  revert w. induction items as [|i items IH]; intros w.
  - unfold events_of, exec. simpl. now rewrite drop_all.
  - rewrite events_of_for_range_cons by apply ProcessItem_later.
    now rewrite fetched_app, ProcessItem_fetched, IH.
Qed.

Lemma ProcessURL_later (input : string) (w : World) : later w (exec (ProcessURL input) w).
Proof.
  assert (Hrun := ProcessURL_run input w). cbv zeta in Hrun.
  unfold exec. rewrite Hrun.
  set (wf := with_trace _ _).
  assert (Lf : forall o, later w (with_stdout o wf)).
  { intros o. split; simpl; auto. now apply prefix_app_r. }
  destruct (snd (eval (FetchFeed input) w)); [apply Lf|].
  destruct (ParseString _) as [feed [err|]]; [apply Lf|].
  eapply later_trans; [apply Lf|].
  apply (for_range_later ProcessItem ProcessItem_later).
Qed.

(** [ProcessURL] hands its argument to the fetcher, once. *)
Lemma ProcessURL_fetched (input : string) (w : World) :
  fetched (events_of (ProcessURL input) w) = [input].
Proof.
  assert (Hrun := ProcessURL_run input w). cbv zeta in Hrun.
  set (wf := with_trace _ _) in Hrun.
  destruct (snd (eval (FetchFeed input) w)).
  { erewrite events_of_prefix; [|unfold exec; rewrite Hrun; reflexivity]. reflexivity. }
  destruct (ParseString _) as [feed [err|]].
  { erewrite events_of_prefix; [|unfold exec; rewrite Hrun; reflexivity]. reflexivity. }
  set (v := with_stdout _ wf) in Hrun.
  erewrite events_of_prefix.
  2:{ unfold exec. rewrite Hrun. fold (exec (for_range (Items feed) ProcessItem) v).
      rewrite (events_of_later (for_range (Items feed) ProcessItem) v)
        by (apply for_range_later, ProcessItem_later).
      subst v wf. simpl. rewrite <- app_assoc. reflexivity. }
  rewrite fetched_app, for_range_items_fetched. reflexivity.
Qed.

Lemma ProcessLine_later (line : string) (w : World) : later w (exec (ProcessLine line) w).
Proof.
  unfold exec. destruct (kept (TrimSpace line)) eqn:Hk.
  - rewrite ProcessLine_kept by exact Hk. apply ProcessURL_later.
  - rewrite ProcessLine_dropped by exact Hk. apply later_refl.
Qed.

Lemma for_range_lines_fetched (lines : list string) (w : World) :
  fetched (events_of (for_range lines ProcessLine) w)
  = List.filter kept (map TrimSpace lines).
Proof.
  revert w. induction lines as [|l lines IH]; intros w.
  - unfold events_of, exec. simpl. now rewrite drop_all.
  - rewrite events_of_for_range_cons by apply ProcessLine_later.
    rewrite fetched_app, IH. simpl.
    destruct (kept (TrimSpace l)) eqn:Hk.
    + unfold events_of, exec. rewrite ProcessLine_kept by exact Hk.
      fold (exec (ProcessURL (TrimSpace l)) w).
      fold (events_of (ProcessURL (TrimSpace l)) w).
      now rewrite ProcessURL_fetched.
    + unfold events_of, exec. rewrite ProcessLine_dropped by exact Hk.
      simpl. now rewrite drop_all.
Qed.

Lemma scan_tokens_all (lines : list string) :
  Forall (fun l => fits l = true) lines -> scan_tokens lines = map dropCR lines.
Proof.
  induction 1 as [|l lines Hl _ IH]; [reflexivity|].
  simpl. now rewrite Hl, IH.
Qed.

(** The scan ends at the first line that does not fit. *)
Lemma scan_tokens_stop (before : list string) (line : string) (after : list string) :
  Forall (fun l => fits l = true) before -> fits line = false ->
  scan_tokens (before ++ line :: after) = map dropCR before.
Proof.
  intros Hb Hl. induction Hb as [|l before Hfit _ IH]; simpl.
  - now rewrite Hl.
  - now rewrite Hfit, IH.
Qed.

Lemma main_fetched_tokens (flags : Flags) (w : World) (data : string) :
  showver flags = false ->
  eval (Open (default "" (environ w !! "HOME") +:+ "/.rss2email/feeds")) w
  = (data, None) ->
  fetched (events_of (main flags) w)
  = List.filter kept (map TrimSpace (ScanLines data)).
Proof.
  intros Hver Hopen.
  unfold events_of, exec, main. rewrite Hver.
  unfold bind, set_VERBOSE, Getenv. simpl.
  set (path := default "" (environ w !! "HOME") +:+ "/.rss2email/feeds") in *.
  set (wv := with_VERBOSE (verbose flags) w).
  assert (Hopen' : Open path wv = ((data, None), wv)).
  { revert Hopen. unfold eval, Open, wv. simpl.
    repeat case_match; simpl; intros; simplify_eq; reflexivity. }
  rewrite Hopen'. simpl.
  destruct (for_range (ScanLines data) ProcessLine wv) as [u w'] eqn:E.
  unfold ret. simpl.
  change (trace w) with (trace wv).
  replace w' with (exec (for_range (ScanLines data) ProcessLine) wv)
    by (unfold exec; now rewrite E).
  apply for_range_lines_fetched.
Qed.

(** C8 (amended). When the feed list opens, with [data] the bytes read
    from it, the URLs [main] hands to the fetcher are, in file order, the
    trimmed forms of exactly those lines the scanner yields whose trimmed
    form is neither empty nor begins with [#].  The scanner yields the
    lines that come before the first line of 65536 bytes or more: at such
    a line the loop ends and all that follows is left out, [scanner.Err]
    not being looked at.  When every line is shorter the lines the scanner
    yields are the lines of [data], and [data] is the whole content of the
    file when no read fails. *)
Theorem main_fetches_kept_lines :
  forall (flags : Flags) (w : World) (data : string),
    showver flags = false ->
    eval (Open (default "" (environ w !! "HOME") +:+ "/.rss2email/feeds")) w
    = (data, None) ->
    let urls := fetched (events_of (main flags) w) in
    let keep := fun tmp => negb (String.eqb tmp "") && negb (HasPrefix tmp "#") in
    urls = List.filter keep (map TrimSpace (ScanLines data)) /\
    (forall before line after,
       raw_lines data = before ++ line :: after ->
       Forall (fun l => fits l = true) before -> fits line = false ->
       urls = List.filter keep (map TrimSpace (map dropCR before))) /\
    (Forall (fun l => fits l = true) (raw_lines data) ->
       urls = List.filter keep (map TrimSpace (file_lines data))) /\
    (forall content,
       files (fs w) !! (default "" (environ w !! "HOME") +:+ "/.rss2email/feeds")
       = Some content ->
       short_read (fs w) !! (default "" (environ w !! "HOME") +:+ "/.rss2email/feeds")
       = None ->
       data = content).
Proof.
  intros flags w data Hver Hopen urls keep. subst urls.
  pose proof (main_fetched_tokens flags w data Hver Hopen) as Hf.
  change kept with keep in Hf.
  split; [exact Hf|]. split; [|split].
  - intros before line after Hraw Hb Hl. rewrite Hf. unfold ScanLines.
    now rewrite Hraw, (scan_tokens_stop before line after Hb Hl).
  - intros Hall. rewrite Hf. unfold ScanLines, file_lines.
    now rewrite (scan_tokens_all _ Hall).
  - intros content Hc Hr. revert Hopen. unfold eval, Open.
    case_decide; [discriminate|]. rewrite Hc, Hr. simpl. congruence.
Qed.

(** ** Claims on the store and on [main] *)

(** C2 (amended). [HasSeen] changes nothing and returns false exactly when
    [os.Stat] on the marker fails with a not-exist error, that is when the
    path is readable and holds neither a file nor a directory; when the
    marker is present, and also when [os.Stat] fails in any other way, it
    returns true. *)
Theorem HasSeen_false_only_when_not_exist :
  forall (i : Item) (w : World),
    let p := marker_path w i in
    let err := eval (Stat p) w in
    exec (HasSeen i) w = w /\
    eval (HasSeen i) w
    = match err with
      | None => true
      | Some (PathError _ _ ENOENT) => false
      | Some _ => true
      end /\
    IsNotExist err
    = bool_decide ((p ∉ noaccess (fs w)) /\ (files (fs w) !! p) = None
                   /\ (p ∉ dirs (fs w))) /\
    eval (HasSeen i) w = negb (IsNotExist err).
Proof.
  intros i w p err. subst p err. split; [apply HasSeen_world|].
  assert (Hev : eval (HasSeen i) w
                = negb (IsNotExist (eval (Stat (marker_path w i)) w))).
  { unfold eval at 1. now rewrite HasSeen_run. }
  rewrite Hev.
  split; [|split; [apply Stat_not_exist | reflexivity]].
  destruct (eval (Stat (marker_path w i)) w) as [[op path []|msg]|]; reflexivity.
Qed.

(** C5 (amended). [RecordSeen] returns no value and prints nothing, and
    always returns: whatever [werr], the error of the marker write, the
    value returned is the same, nothing is printed, and the only record of
    [werr] is in the recorded call, which the program does not see.  When
    the write succeeded the marker holds the link of the entry. *)
Theorem RecordSeen_drops_write_error :
  forall (i : Item) (w : World),
    let p := marker_path w i in
    let w' := exec (RecordSeen i) w in
    let werr := eval (WriteFile p (Link i)) (exec (MkdirAll (seen_dir w)) w) in
    eval (RecordSeen i) w = tt /\
    stdout w' = stdout w /\
    events_of (RecordSeen i) w = [CallRecordSeen (GUID i) (Link i) werr] /\
    (werr = None -> files (fs w') = <[p := Link i]> (files (fs w))).
Proof.
  intros i w p w' werr.
  assert (Hw : werr = marker_werr w i).
  { subst werr p. unfold eval. now rewrite MkdirAll_world, WriteFile_run. }
  rewrite Hw. subst p w'.
  destruct (RecordSeen_run i w)
    as (_ & _ & _ & _ & Ho & _ & _ & _ & _ & (Hf & _) & Ht).
  split; [destruct (eval (RecordSeen i) w); reflexivity|].
  split; [exact Ho|]. split; [now apply events_of_prefix | exact Hf].
Qed.

(** C6 (amended). When the feed list cannot be opened, [main] prints the
    error and returns at once: no feed is fetched or processed, nothing but
    the verbosity setting and the output changes, and, [main] having
    returned, the exit status is 0. *)
Theorem main_returns_when_feed_list_is_missing :
  forall (flags : Flags) (w : World) (err : error),
    let path := default "" (environ w !! "HOME") +:+ "/.rss2email/feeds" in
    showver flags = false ->
    snd (eval (Open path) w) = Some err ->
    main flags w
    = (0, with_stdout
            (stdout w ++ ["Error opening " +:+ path +:+ " - " +:+ Error err +:+ nl])
            (with_VERBOSE (verbose flags) w)) /\
    events_of (main flags) w = [].
Proof.
  intros flags w err path Hver Hopen.
  assert (Hm : main flags w
               = (0, with_stdout
                       (stdout w ++ ["Error opening " +:+ path +:+ " - " +:+ Error err +:+ nl])
                       (with_VERBOSE (verbose flags) w))).
  { unfold main. rewrite Hver. unfold bind, set_VERBOSE, Getenv. simpl. fold path.
    revert Hopen. unfold eval, Open, Printf, ret. simpl.
    repeat case_match; simpl; intros; simpl in *; simplify_eq; reflexivity. }
  split; [exact Hm|].
  unfold events_of, exec. rewrite Hm. simpl. now rewrite drop_all.
Qed.


End Delivery.

(** ** The claims at concrete inputs *)

Example kept_examples :
  map (fun l => kept (TrimSpace l)) [""; "   "; "# comment"; "https://example.com/feed"]
  = [false; false; false; true]
  /\ TrimSpace " https://example.com/feed  " = "https://example.com/feed".
Proof. split; reflexivity. Qed.


(** C2, as stated, fails where [os.Stat] fails with a permission error:
    no marker exists, the error is not a not-exist error, and [HasSeen]
    returns true. *)
Lemma HasSeen_true_on_permission_error :
  let p := marker_path world_noaccess item_a in
  files (fs world_noaccess) !! p = None
  /\ eval (Stat p) world_noaccess = Some (PathError "stat" p EACCES)
  /\ IsNotExist (eval (Stat p) world_noaccess) = false
  /\ eval (HasSeen item_a) world_noaccess = true.
Proof. vm_compute. repeat split. Qed.

(** C3 at a failing input: [sendmail] exits with status 1; [SendMail]
    prints that waiting for the process failed and returns nil, and the
    loop of [ProcessURL] then records the entry as seen.  A broken pipe
    while the message is written does make [SendMail] return the error. *)
Theorem SendMail_returns_nil_on_nonzero_exit :
  eval (SendMail (C := sample_collaborators) "u" "About a" "<p>a</p>" "<p>a</p>")
       world_exit_1 = None
  /\ stdout (exec (SendMail (C := sample_collaborators) "u" "About a" "<p>a</p>" "<p>a</p>")
                  world_exit_1)
     = ["Waiting for process to terminate failed: exit status 1" +:+ nl]
  /\ eval (HasSeen item_a)
          (exec (ProcessItem (C := sample_collaborators) item_a) world_exit_1) = true
  /\ eval (SendMail (C := sample_collaborators) "u" "About a" "<p>a</p>" "<p>a</p>")
          world_broken_pipe = Some (ErrorString "write |1: broken pipe").
Proof. vm_compute. repeat split. Qed.

(** C4, as stated, fails where the marker of an entry cannot be written:
    both entries are delivered in the first run, every [SendMail] returning
    nil, and the second run over the same content mails the first entry
    again. *)
Lemma second_run_delivers_again :
  let run := ProcessURL (C := sample_collaborators) sample_url in
  let w1 := exec run world_readonly in
  List.filter is_SendMail (events_of run world_readonly)
  = [CallSendMail "u" "About a" "<p>a</p>" "<p>a</p>" None;
     CallSendMail "u" "About b" "<p>b</p>" "<p>b</p>" None]
  /\ eval (FetchFeed sample_url) w1 = eval (FetchFeed sample_url) world_readonly
  /\ eval (HasSeen item_a) w1 = false
  /\ List.filter is_SendMail (events_of run w1)
     = [CallSendMail "u" "About a" "<p>a</p>" "<p>a</p>" None].
Proof. vm_compute. repeat split. Qed.

(** C5, as stated, fails where the marker cannot be written: the write
    fails, and [RecordSeen] returns the same value and prints the same
    (nothing) as it does when the write succeeds; the marker is absent. *)
Lemma RecordSeen_failure_not_reported :
  let p := marker_path world_readonly item_a in
  eval (WriteFile p (Link item_a)) world_readonly = Some (PathError "open" p EACCES)
  /\ eval (RecordSeen item_a) world_readonly = eval (RecordSeen item_a) sample_world
  /\ stdout (exec (RecordSeen item_a) world_readonly) = stdout world_readonly
  /\ stdout (exec (RecordSeen item_a) sample_world) = stdout sample_world
  /\ files (fs (exec (RecordSeen item_a) world_readonly)) !! p = None
  /\ files (fs (exec (RecordSeen item_a) sample_world)) !! p = Some (Link item_a).
Proof. vm_compute. repeat split. Qed.

(** C6, as stated, fails where there is no feed list: opening it fails and
    the exit status is 0. *)
Lemma main_exit_status_0_without_feed_list :
  snd (eval (Open "/home/u/.rss2email/feeds") world_nofeeds)
  = Some (PathError "open" "/home/u/.rss2email/feeds" ENOENT)
  /\ eval (main (C := sample_collaborators) sample_flags) world_nofeeds = 0
  /\ ~ eval (main (C := sample_collaborators) sample_flags) world_nofeeds <> 0.
Proof. vm_compute. repeat split. intros Hne. now apply Hne. Qed.

(** The amended C4 at the sample feed: both entries are delivered and
    marked in the first run, and the second run calls only the fetch. *)
Lemma second_run_delivers_nothing_witness :
  let run := ProcessURL (C := sample_collaborators) sample_url in
  let w1 := exec run sample_world in
  (eval (FetchFeed sample_url) sample_world = ("a" +:+ nl +:+ "b" +:+ nl, None)
   /\ Forall no_failure (events_of run sample_world)
   /\ eval (FetchFeed sample_url) w1 = ("a" +:+ nl +:+ "b" +:+ nl, None))
  /\ ((forall i, In i [sample_item "a"; sample_item "b"] -> eval (HasSeen i) w1 = true)
      /\ events_of run w1 = [CallFetchFeed sample_url]
      /\ List.filter is_SendMail (events_of run w1) = []
      /\ fs (exec run w1) = fs w1).
Proof.
  assert (H1 : eval (FetchFeed sample_url) sample_world
               = ("a" +:+ nl +:+ "b" +:+ nl, None)) by reflexivity.
  assert (H2 : Forall no_failure
                 (events_of (ProcessURL (C := sample_collaborators) sample_url)
                    sample_world)).
  { vm_compute. repeat constructor. }
  assert (H3 : eval (FetchFeed sample_url)
                 (exec (ProcessURL (C := sample_collaborators) sample_url) sample_world)
               = ("a" +:+ nl +:+ "b" +:+ nl, None)) by reflexivity.
  split; [auto|].
  exact (second_run_delivers_nothing (C := sample_collaborators) sample_url
           ("a" +:+ nl +:+ "b" +:+ nl)
           {| Items := [sample_item "a"; sample_item "b"] |}
           sample_world
           (exec (ProcessURL (C := sample_collaborators) sample_url) sample_world)
           H1 eq_refl H2 eq_refl eq_refl H3).
Defined.

(** The amended C6 at a world without a feed list. *)
Lemma main_returns_when_feed_list_is_missing_witness :
  let err := PathError "open" "/home/u/.rss2email/feeds" ENOENT in
  (showver sample_flags = false
   /\ snd (eval (Open "/home/u/.rss2email/feeds") world_nofeeds) = Some err)
  /\ (main (C := sample_collaborators) sample_flags world_nofeeds
      = (0, with_stdout
              ["Error opening /home/u/.rss2email/feeds - " +:+ Error err +:+ nl]
              world_nofeeds)
      /\ events_of (main (C := sample_collaborators) sample_flags) world_nofeeds = []).
Proof.
  split; [split; reflexivity|].
  exact (main_returns_when_feed_list_is_missing (C := sample_collaborators)
           sample_flags world_nofeeds
           (PathError "open" "/home/u/.rss2email/feeds" ENOENT) eq_refl eq_refl).
Defined.

(** C8, as stated, fails after a line of 65536 bytes: the feed list
    opens, its second line is a URL that [main] would keep, and the run
    fetches nothing. *)
Lemma main_stops_at_long_line :
  files (fs world_long_line) !! "/home/u/.rss2email/feeds" = Some long_feeds
  /\ snd (eval (Open "/home/u/.rss2email/feeds") world_long_line) = None
  /\ map (fun l => N.of_nat (String.length l)) (file_lines long_feeds)
     = [65536%N; 24%N]
  /\ nth 1 (file_lines long_feeds) "" = "https://example.com/feed"
  /\ kept (TrimSpace "https://example.com/feed") = true
  /\ fetched (events_of (main (C := sample_collaborators) sample_flags) world_long_line)
     = [].
Proof. split; [reflexivity|]. vm_compute. repeat split. Qed.

(** The amended C8 at the sample feed list: the comment, the empty line
    and the blank line are skipped; the three URLs are fetched in file
    order, trimmed. *)
Lemma main_fetches_kept_lines_witness :
  (showver sample_flags = false
   /\ eval (Open "/home/u/.rss2email/feeds") sample_world = (sample_feeds, None))
  /\ fetched (events_of (main (C := sample_collaborators) sample_flags) sample_world)
     = ["https://example.com/feed"; "https://example.org/down";
        "https://example.com/feed"].
Proof.
  split; [split; reflexivity|].
  destruct (main_fetches_kept_lines (C := sample_collaborators)
              sample_flags sample_world sample_feeds eq_refl eq_refl)
    as (_ & _ & Hall & _).
  rewrite Hall; [reflexivity|].
  vm_compute. repeat constructor.
Defined.

(** C9 at a URL whose fetch fails. *)
Lemma ProcessURL_bad_feed_is_skipped_witness :
  let input := "https://example.org/down" in
  let w' := exec (ProcessURL (C := sample_collaborators) input) sample_world in
  snd (eval (FetchFeed input) sample_world)
  = Some (ErrorString "dial tcp: connection refused")
  /\ (eval (ProcessURL (C := sample_collaborators) input) sample_world = tt
      /\ fs w' = fs sample_world
      /\ events_of (ProcessURL (C := sample_collaborators) input) sample_world
         = [CallFetchFeed input]
      /\ stdout w'
         = ["Error processing https://example.org/down - dial tcp: connection refused"
            +:+ nl]
      /\ (forall line rest,
            TrimSpace line = input -> kept input = true ->
            exec (for_range (line :: rest) (ProcessLine (C := sample_collaborators)))
                 sample_world
            = exec (for_range rest (ProcessLine (C := sample_collaborators))) w')).
Proof.
  split; [reflexivity|].
  apply (ProcessURL_bad_feed_is_skipped (C := sample_collaborators)
           "https://example.org/down" sample_world).
  left. discriminate.
Defined.


(** A marker write that fails once the file is open leaves the file
    behind, here empty: no error is reported and the entry is seen from
    then on. *)
Example marker_cut_short :
  let w' := exec (ProcessItem (C := sample_collaborators) item_a) world_short_write in
  let p := marker_path world_short_write item_a in
  events_of (ProcessItem (C := sample_collaborators) item_a) world_short_write
  = [CallSendMail "u" "About a" "<p>a</p>" "<p>a</p>" None;
     CallRecordSeen "a" "https://example.com/a" (Some (PathError "write" p ENOSPC))]
  /\ files (fs w') !! p = Some ""
  /\ eval (HasSeen item_a) w' = true.
Proof. vm_compute. repeat split. Qed.

(** A read that fails ends the scan as the end of the file does: the
    bytes read so far make the last line, and [main] fetches it. *)
Example feed_list_cut_short :
  eval (Open "/home/u/.rss2email/feeds") world_short_read = ("https://exam", None)
  /\ fetched (events_of (main (C := sample_collaborators) sample_flags) world_short_read)
     = ["https://exam"].
Proof. vm_compute. repeat split. Qed.

(** * Further properties of the code *)

(** ** [SendMail] *)

Section Mail.

Context `{C : Collaborators}.

(** [SendMail], with the value it returns spelled out. *)
Lemma SendMail_run_returns (addr subject textstr htmlstr : string) (w : World) :
  exists out : list string,
    SendMail addr subject textstr htmlstr w
    = (SendMail_returns addr textstr htmlstr (sendmail_runs w (length (trace w))),
       with_trace
         (trace w ++ [CallSendMail addr subject textstr htmlstr
                        (SendMail_returns addr textstr htmlstr
                           (sendmail_runs w (length (trace w))))])
         (with_stdout (stdout w ++ out) w)).
Proof.
  unfold SendMail, SendMail_body, Command, SendMail_returns. run.
  repeat (case_match; simpl in * ); unfold ret in *; simplify_eq; simpl;
    first [ eexists []; simpl; rewrite ?app_nil_r, <- ?app_assoc; simpl;
            repeat match goal with w : World |- _ => destruct w end; reflexivity
          | eexists [_]; simpl; rewrite ?app_nil_r, <- ?app_assoc; simpl;
            repeat match goal with w : World |- _ => destruct w end; reflexivity
          | eexists [_; _]; simpl; rewrite ?app_nil_r, <- ?app_assoc; simpl;
            repeat match goal with w : World |- _ => destruct w end; reflexivity ].
Qed.

Lemma SendMail_eval (addr subject textstr htmlstr : string) (w : World) :
  eval (SendMail addr subject textstr htmlstr) w
  = SendMail_returns addr textstr htmlstr (sendmail_runs w (length (trace w))).
Proof.
  destruct (SendMail_run_returns addr subject textstr htmlstr w) as [out E].
  unfold eval. now rewrite E.
Qed.

End Mail.

Section MailProperties.

Context `{C : Collaborators}.

(** X1. [SendMail] returns nil exactly when the recipient is not empty,
    both bodies are encoded, both pipes are obtained and the message is
    written to the pipe: what [Start], reading the output and [Wait]
    return has no part in it. *)
Theorem SendMail_nil_iff :
  forall (addr subject textstr htmlstr : string) (w : World),
    let p := sendmail_runs w (length (trace w)) in
    eval (SendMail addr subject textstr htmlstr) w = None <->
    addr <> "" /\
    snd (toQuotedPrintable textstr) = None /\
    snd (toQuotedPrintable (UnescapeString htmlstr)) = None /\
    stdin_pipe_err p = None /\ stdout_pipe_err p = None /\ write_err p = None.
Proof.
  intros addr subject textstr htmlstr w p. subst p.
  rewrite SendMail_eval. unfold SendMail_returns.
  destruct (String.eqb_spec addr "") as [->|Hne].
  { split; [discriminate | intros [Habs _]; now destruct Habs]. }
  destruct (snd (toQuotedPrintable textstr)); [split; [discriminate | intros (_ & ? & _); discriminate]|].
  destruct (snd (toQuotedPrintable (UnescapeString htmlstr)));
    [split; [discriminate | intros (_ & _ & ? & _); discriminate]|].
  destruct (stdin_pipe_err _); [split; [discriminate | intros (_ & _ & _ & ? & _); discriminate]|].
  destruct (stdout_pipe_err _);
    [split; [discriminate | intros (_ & _ & _ & _ & ? & _); discriminate]|].
  split; [intros ->; auto 10 | intros (_ & _ & _ & _ & _ & ?); assumption].
Qed.

(** X2. [SendMail] touches neither the store nor the environment nor the
    verbosity: it only adds to the output, and it is recorded once, with
    the value it returned. *)
Theorem SendMail_only_prints :
  forall (addr subject textstr htmlstr : string) (w : World),
    let w' := exec (SendMail addr subject textstr htmlstr) w in
    fs w' = fs w /\ environ w' = environ w /\ VERBOSE w' = VERBOSE w /\
    stdout w `prefix_of` stdout w' /\
    events_of (SendMail addr subject textstr htmlstr) w
    = [CallSendMail addr subject textstr htmlstr
         (eval (SendMail addr subject textstr htmlstr) w)].
Proof.
  intros addr subject textstr htmlstr w w'. subst w'.
  destruct (SendMail_run_returns addr subject textstr htmlstr w) as [out E].
  rewrite SendMail_eval. unfold exec, events_of, exec. rewrite E. simpl.
  repeat split; [now apply prefix_app_r | apply drop_app_length].
Qed.

End MailProperties.

(** ** The store *)


Lemma HasSeen_eval (i : Item) (w : World) :
  eval (HasSeen i) w
  = negb (bool_decide ((marker_path w i ∉ noaccess (fs w))
                       /\ (files (fs w) !! marker_path w i) = None
                       /\ (marker_path w i ∉ dirs (fs w)))).
Proof. unfold eval. rewrite HasSeen_run. simpl. now rewrite Stat_not_exist. Qed.





(** ** The loops *)

Lemma for_range_preserves {A} (R : World -> World -> Prop) (body : A -> M unit) :
  (forall w, R w w) ->
  (forall w1 w2 w3, R w1 w2 -> R w2 w3 -> R w1 w3) ->
  (forall x w, R w (exec (body x) w)) ->
  forall xs w, R w (exec (for_range xs body) w).
Proof.
  intros Hrefl Htrans Hb xs. induction xs as [|x xs IH]; intros w.
  - apply Hrefl.
  - rewrite for_range_cons. eapply Htrans; [apply Hb | apply IH].
Qed.

Section Loops.

Context `{C : Collaborators}.

(** An unseen entry, with the value [SendMail] returns spelled out. *)
Lemma ProcessItem_unseen_returns (i : Item) (w : World) :
  eval (HasSeen i) w = false ->
  exists out : list string,
    let addr := default "" (environ w !! "LOGNAME") in
    let r := SendMail_returns addr (HTML2Text (Content i)) (Content i)
               (sendmail_runs w (length (trace w))) in
    let w1 := with_trace
                (trace w ++ [CallSendMail addr (Title i) (HTML2Text (Content i))
                               (Content i) r])
                (with_stdout (stdout w ++ out) w) in
    ProcessItem i w = match r with
                      | None => RecordSeen i w1
                      | Some _ => (tt, w1)
                      end.
Proof.
  unfold eval. rewrite HasSeen_run. simpl. intros Hs.
  unfold ProcessItem, bind. rewrite HasSeen_run, Hs. simpl.
  unfold get_VERBOSE, when, Getenv.
  destruct (VERBOSE w) eqn:Hv.
  - unfold Printf at 1. simpl.
    set (w0 := with_stdout (stdout w ++ ["New item: " +:+ GUID i +:+ nl]) w).
    destruct (SendMail_run_returns (default "" (environ w !! "LOGNAME")) (Title i)
                (HTML2Text (Content i)) (Content i) w0) as (out & E).
    rewrite E. exists (["New item: " +:+ GUID i +:+ nl] ++ out).
    subst w0. rewrite with_stdout_app. simpl.
    destruct (SendMail_returns _ _ _ _); reflexivity.
  - unfold ret at 1. simpl.
    destruct (SendMail_run_returns (default "" (environ w !! "LOGNAME")) (Title i)
                (HTML2Text (Content i)) (Content i) w) as (out & E).
    rewrite E. exists out. destruct (SendMail_returns _ _ _ _); reflexivity.
Qed.

Lemma HasSeen_false_absent (i : Item) (w : World) :
  eval (HasSeen i) w = false -> files (fs w) !! marker_path w i = None.
Proof.
  rewrite HasSeen_eval, negb_false_iff, bool_decide_eq_true. tauto.
Qed.

(** A turn of the loop only ever adds a file that was not there. *)
Lemma ProcessItem_files (i : Item) (w : World) :
  files (fs w) ⊆ files (fs (exec (ProcessItem i) w)).
Proof.
  destruct (eval (HasSeen i) w) eqn:Hs.
  - unfold exec. now rewrite ProcessItem_seen.
  - destruct (ProcessItem_unseen_returns i w Hs) as (out & E). cbv zeta in E.
    unfold exec. rewrite E. clear E.
    set (w1 := with_trace _ _).
    destruct (SendMail_returns _ _ _ _); [reflexivity|].
    fold (exec (RecordSeen i) w1).
    destruct (RecordSeen_run i w1)
      as (_ & _ & _ & _ & _ & _ & _ & _ & _ & (_ & _ & _ & Hsub) & _).
    apply Hsub. change (files (fs w) !! marker_path w i = None).
    now apply HasSeen_false_absent.
Qed.

Lemma ProcessURL_files (input : string) (w : World) :
  files (fs w) ⊆ files (fs (exec (ProcessURL input) w)).
Proof.
  assert (Hrun := ProcessURL_run input w). cbv zeta in Hrun.
  unfold exec. rewrite Hrun. clear Hrun.
  destruct (snd (eval (FetchFeed input) w)); [reflexivity|].
  destruct (ParseString _) as [feed [err|]]; [reflexivity|].
  set (v := with_stdout _ _). change (files (fs w)) with (files (fs v)).
  apply (for_range_preserves (fun a b => files (fs a) ⊆ files (fs b)) ProcessItem).
  - reflexivity.
  - intros ? ? ? ? ?. etransitivity; eassumption.
  - intros x u. apply ProcessItem_files.
Qed.

(** X6. The store is write-once under [ProcessURL]: every file that was
    there is still there with the content it had, the environment is what
    it was, and every entry that answered "seen" still does. *)
Theorem ProcessURL_store_write_once :
  forall (input : string) (w : World),
    let w' := exec (ProcessURL input) w in
    files (fs w) ⊆ files (fs w') /\
    environ w' = environ w /\
    (forall i : Item, eval (HasSeen i) w = true -> eval (HasSeen i) w' = true).
Proof.
  intros input w w'. subst w'.
  split; [apply ProcessURL_files|].
  pose proof (ProcessURL_later input w) as L.
  split; [apply (later_environ _ _ L)|].
  intros i. now apply HasSeen_later.
Qed.

Lemma ProcessItem_calls (i : Item) (w : World) :
  item_calls (default "" (environ w !! "LOGNAME")) i (events_of (ProcessItem i) w).
Proof.
  destruct (eval (HasSeen i) w) eqn:Hs.
  - unfold events_of, exec. rewrite ProcessItem_seen by exact Hs. simpl.
    rewrite drop_all. constructor.
  - destruct (ProcessItem_unseen_returns i w Hs) as (out & E). cbv zeta in E.
    set (r := SendMail_returns _ _ _ _) in E.
    set (w1 := with_trace _ _) in E.
    destruct r as [e|] eqn:Hr.
    + erewrite events_of_prefix; [|unfold exec; rewrite E; reflexivity].
      constructor.
    + destruct (RecordSeen_run i w1) as (_ & _ & _ & _ & _ & _ & _ & _ & _ & _ & Ht).
      erewrite events_of_prefix.
      2:{ unfold exec. rewrite E. fold (exec (RecordSeen i) w1). rewrite Ht.
          subst w1. simpl. rewrite <- app_assoc. reflexivity. }
      constructor.
Qed.

Lemma for_range_calls (items : list Item) (w : World) :
  feed_calls (default "" (environ w !! "LOGNAME")) items
    (events_of (for_range items ProcessItem) w).
Proof.
  revert w. induction items as [|i items IH]; intros w.
  - unfold events_of, exec. simpl. rewrite drop_all. constructor.
  - rewrite events_of_for_range_cons by apply ProcessItem_later.
    constructor; [apply ProcessItem_calls|].
    rewrite <- (later_environ _ _ (ProcessItem_later i w)). apply IH.
Qed.

Lemma feed_calls_counts (addr : string) (items : list Item) (evs : list Event) :
  feed_calls addr items evs ->
  (length (List.filter is_SendMail evs) <= length items)%nat /\
  (length (List.filter is_RecordSeen evs) <= length (List.filter is_SendMail evs))%nat.
Proof.
  induction 1 as [|i items evs1 evs2 H1 _ [IH1 IH2]]; [simpl; lia|].
  rewrite !List.filter_app, !length_app.
  destruct H1; simpl; lia.
Qed.

(** X7. The calls of [ProcessURL], whatever the feed: first the fetch of
    its argument; then, entry by entry in feed order, nothing (the entry
    was seen), or one [SendMail] to [$LOGNAME] with the title, the text and
    the content of the entry that failed, or one that returned nil followed
    at once by the [RecordSeen] of that same entry.  So there is at most
    one mail per entry and no [RecordSeen] without its mail; when the fetch
    or the parse fails there is no entry. *)
Theorem ProcessURL_calls :
  forall (input : string) (w : World),
    let r := eval (FetchFeed input) w in
    let items := match snd r, ParseString (fst r) with
                 | None, (feed, None) => Items feed
                 | _, _ => []
                 end in
    exists evs : list Event,
      events_of (ProcessURL input) w = CallFetchFeed input :: evs /\
      feed_calls (default "" (environ w !! "LOGNAME")) items evs /\
      (length (List.filter is_SendMail evs) <= length items)%nat /\
      (length (List.filter is_RecordSeen evs)
       <= length (List.filter is_SendMail evs))%nat.
Proof.
  intros input w r items. subst r items.
  assert (Hrun := ProcessURL_run input w). cbv zeta in Hrun.
  set (wf := with_trace _ _) in Hrun.
  assert (Hgoal : exists evs,
            events_of (ProcessURL input) w = CallFetchFeed input :: evs /\
            feed_calls (default "" (environ w !! "LOGNAME"))
              match snd (eval (FetchFeed input) w),
                    ParseString (fst (eval (FetchFeed input) w)) with
              | None, (feed, None) => Items feed
              | _, _ => []
              end evs).
  { destruct (snd (eval (FetchFeed input) w)).
    { exists []. split; [|constructor].
      apply events_of_prefix. unfold exec. rewrite Hrun. reflexivity. }
    destruct (ParseString _) as [feed [err|]].
    { exists []. split; [|constructor].
      apply events_of_prefix. unfold exec. rewrite Hrun. reflexivity. }
    set (v := with_stdout _ wf) in Hrun.
    exists (events_of (for_range (Items feed) ProcessItem) v). split.
    - apply events_of_prefix. unfold exec. rewrite Hrun.
      fold (exec (for_range (Items feed) ProcessItem) v).
      rewrite (events_of_later (for_range (Items feed) ProcessItem) v)
        by (apply for_range_later, ProcessItem_later).
      subst v wf. simpl. rewrite <- app_assoc. reflexivity.
    - apply (for_range_calls (Items feed) v). }
  destruct Hgoal as (evs & Hev & Hcalls). exists evs.
  split; [exact Hev|]. split; [exact Hcalls|].
  exact (feed_calls_counts _ _ _ Hcalls).
Qed.

Lemma ProcessItem_no_recipient (i : Item) (w : World) :
  default "" (environ w !! "LOGNAME") = "" ->
  fs (exec (ProcessItem i) w) = fs w /\
  Forall no_recipient_call (events_of (ProcessItem i) w).
Proof.
  intros Hlog. destruct (eval (HasSeen i) w) eqn:Hs.
  - unfold events_of, exec. rewrite ProcessItem_seen by exact Hs. simpl.
    rewrite drop_all. split; [reflexivity | constructor].
  - destruct (ProcessItem_unseen_returns i w Hs) as (out & E). cbv zeta in E.
    rewrite Hlog in E. unfold SendMail_returns in E. simpl in E.
    split.
    + unfold exec. rewrite E. reflexivity.
    + erewrite events_of_prefix; [|unfold exec; rewrite E; reflexivity].
      repeat constructor.
Qed.

Lemma for_range_no_recipient (items : list Item) (w : World) :
  default "" (environ w !! "LOGNAME") = "" ->
  fs (exec (for_range items ProcessItem) w) = fs w /\
  Forall no_recipient_call (events_of (for_range items ProcessItem) w).
Proof.
  revert w. induction items as [|i items IH]; intros w Hlog.
  - unfold events_of, exec. simpl. rewrite drop_all. split; [reflexivity|constructor].
  - rewrite events_of_for_range_cons by apply ProcessItem_later.
    rewrite for_range_cons.
    destruct (ProcessItem_no_recipient i w Hlog) as [Hfs Hev].
    destruct (IH (exec (ProcessItem i) w)) as [Hfs' Hev'].
    { now rewrite (later_environ _ _ (ProcessItem_later i w)). }
    split; [congruence | now apply Forall_app].
Qed.

(** X8. With [$LOGNAME] unset or empty nothing is delivered and nothing is
    recorded: every [SendMail] of [ProcessURL] is refused for want of a
    recipient, [RecordSeen] is never called, the store is untouched, and
    every entry is as seen or unseen afterwards as it was. *)
Theorem ProcessURL_without_recipient :
  forall (input : string) (w : World),
    default "" (environ w !! "LOGNAME") = "" ->
    let w' := exec (ProcessURL input) w in
    fs w' = fs w /\
    Forall no_recipient_call (events_of (ProcessURL input) w) /\
    (forall i : Item, eval (HasSeen i) w' = eval (HasSeen i) w).
Proof.
  intros input w Hlog w'. subst w'.
  assert (Hrun := ProcessURL_run input w). cbv zeta in Hrun.
  set (wf := with_trace _ _) in Hrun.
  assert (H2 : fs (exec (ProcessURL input) w) = fs w /\
               Forall no_recipient_call (events_of (ProcessURL input) w)).
  { destruct (snd (eval (FetchFeed input) w)).
    { split; [unfold exec; now rewrite Hrun|].
      erewrite events_of_prefix; [|unfold exec; rewrite Hrun; reflexivity].
      repeat constructor. }
    destruct (ParseString _) as [feed [err|]].
    { split; [unfold exec; now rewrite Hrun|].
      erewrite events_of_prefix; [|unfold exec; rewrite Hrun; reflexivity].
      repeat constructor. }
    set (v := with_stdout _ wf) in Hrun.
    destruct (for_range_no_recipient (Items feed) v Hlog) as [Hfs Hev].
    split.
    - unfold exec. rewrite Hrun. exact Hfs.
    - erewrite events_of_prefix.
      2:{ unfold exec. rewrite Hrun.
          fold (exec (for_range (Items feed) ProcessItem) v).
          rewrite (events_of_later (for_range (Items feed) ProcessItem) v)
            by (apply for_range_later, ProcessItem_later).
          subst v wf. simpl. rewrite <- app_assoc. reflexivity. }
      constructor; [exact I | exact Hev]. }
  destruct H2 as [Hfs Hev]. split; [exact Hfs|]. split; [exact Hev|].
  intros i. apply HasSeen_ext; [exact Hfs|].
  apply (later_environ _ _ (ProcessURL_later input w)).
Qed.

(** *** Verbosity *)

Lemma sbo_refl (w : World) : same_but_output w w.
Proof. split; reflexivity. Qed.

Lemma sbo_trans (w1 w2 w3 : World) :
  same_but_output w1 w2 -> same_but_output w2 w3 -> same_but_output w1 w3.
Proof. intros [] []. split; congruence. Qed.

Lemma sbo_with_stdout (o : list string) (w : World) :
  same_but_output w (with_stdout o w).
Proof. split; reflexivity. Qed.

Lemma sbo_with_VERBOSE (v : bool) (w : World) :
  same_but_output w (with_VERBOSE v w).
Proof. split; reflexivity. Qed.

Lemma sbo_sym (w1 w2 : World) : same_but_output w1 w2 -> same_but_output w2 w1.
Proof. intros []. split; congruence. Qed.

Lemma HasSeen_sbo (i : Item) (w1 w2 : World) :
  same_but_output w1 w2 -> eval (HasSeen i) w1 = eval (HasSeen i) w2.
Proof. intros [He Hf _ _ _]. now apply HasSeen_ext. Qed.

Lemma RecordSeen_sbo (i : Item) (w1 w2 : World) :
  same_but_output w1 w2 ->
  same_but_output (exec (RecordSeen i) w1) (exec (RecordSeen i) w2).
Proof.
  intros [He Hf Hn Hs Ht].
  destruct (RecordSeen_run i w1) as (_ & He1 & Hn1 & Hs1 & _ & _ & _ & _ & _ & _ & Ht1).
  destruct (RecordSeen_run i w2) as (_ & He2 & Hn2 & Hs2 & _ & _ & _ & _ & _ & _ & Ht2).
  assert (Hp : marker_path w1 i = marker_path w2 i).
  { unfold marker_path. now rewrite He. }
  split.
  - congruence.
  - rewrite !RecordSeen_fs. unfold marker_fs, seen_dir. now rewrite Hp, He, Hf.
  - congruence.
  - congruence.
  - rewrite Ht1, Ht2. unfold marker_werr, seen_dir. now rewrite Hp, He, Hf, Ht.
Qed.

Lemma ProcessItem_sbo (i : Item) (w1 w2 : World) :
  same_but_output w1 w2 ->
  same_but_output (exec (ProcessItem i) w1) (exec (ProcessItem i) w2).
Proof.
  intros S. pose proof (HasSeen_sbo i w1 w2 S) as Hhs.
  destruct (eval (HasSeen i) w1) eqn:Hs1; symmetry in Hhs.
  - unfold exec. now rewrite !ProcessItem_seen.
  - destruct (ProcessItem_unseen_returns i w1 Hs1) as (out1 & E1).
    destruct (ProcessItem_unseen_returns i w2 Hhs) as (out2 & E2).
    cbv zeta in E1, E2. destruct S as [He Hf Hn Hsm Ht].
    rewrite <- He, <- Hsm, <- Ht in E2.
    set (r := SendMail_returns _ _ _ _) in E1, E2.
    set (v1 := with_trace _ _) in E1. set (v2 := with_trace _ _) in E2.
    assert (Sv : same_but_output v1 v2).
    { subst v1 v2. split; simpl; congruence. }
    unfold exec. rewrite E1, E2. destruct r; [exact Sv|].
    now apply RecordSeen_sbo.
Qed.

Lemma for_range_sbo (items : list Item) (w1 w2 : World) :
  same_but_output w1 w2 ->
  same_but_output (exec (for_range items ProcessItem) w1)
                  (exec (for_range items ProcessItem) w2).
Proof.
  revert w1 w2. induction items as [|i items IH]; intros w1 w2 S; [exact S|].
  rewrite !for_range_cons. now apply IH, ProcessItem_sbo.
Qed.

Lemma ProcessURL_sbo (input : string) (w1 w2 : World) :
  same_but_output w1 w2 ->
  same_but_output (exec (ProcessURL input) w1) (exec (ProcessURL input) w2).
Proof.
  intros S.
  assert (Hr1 := ProcessURL_run input w1). assert (Hr2 := ProcessURL_run input w2).
  cbv zeta in Hr1, Hr2.
  assert (Hf : eval (FetchFeed input) w2 = eval (FetchFeed input) w1).
  { destruct S. apply FetchFeed_eval_ext; congruence. }
  rewrite Hf in Hr2.
  set (wf1 := with_trace _ _) in Hr1. set (wf2 := with_trace _ _) in Hr2.
  assert (Sf : forall o1 o2, same_but_output (with_stdout o1 wf1) (with_stdout o2 wf2)).
  { intros o1 o2. subst wf1 wf2. destruct S. split; simpl; congruence. }
  unfold exec. rewrite Hr1, Hr2.
  destruct (snd (eval (FetchFeed input) w1)); [apply Sf|].
  destruct (ParseString _) as [feed [err|]]; [apply Sf|].
  apply for_range_sbo, Sf.
Qed.

(** X9. Verbosity changes the output only: [ProcessURL] run verbosely and
    run quietly from otherwise the same world leaves the same store and
    the same environment and makes the same calls with the same results. *)
Theorem ProcessURL_verbosity_only_prints :
  forall (input : string) (w : World) (v : bool),
    let w1 := exec (ProcessURL input) w in
    let w2 := exec (ProcessURL input) (with_VERBOSE v w) in
    fs w2 = fs w1 /\ environ w2 = environ w1 /\ trace w2 = trace w1 /\
    events_of (ProcessURL input) (with_VERBOSE v w) = events_of (ProcessURL input) w.
Proof.
  intros input w v w1 w2. subst w1 w2.
  destruct (ProcessURL_sbo input w (with_VERBOSE v w) (sbo_with_VERBOSE v w))
    as [He Hf _ _ Ht].
  unfold events_of. simpl. now rewrite Ht.
Qed.

(** *** The whole run *)

Lemma Open_run (name : string) (w : World) : Open name w = (eval (Open name) w, w).
Proof. unfold eval, Open. repeat case_match; reflexivity. Qed.

Lemma Open_ext (name : string) (w w' : World) :
  fs w' = fs w -> eval (Open name) w' = eval (Open name) w.
Proof.
  intros Hf. unfold eval, Open. rewrite Hf.
  repeat case_match; simplify_eq; reflexivity.
Qed.

(** [main], by its three ways out. *)
Lemma main_run (flags : Flags) (w : World) :
  let path := default "" (environ w !! "HOME") +:+ "/.rss2email/feeds" in
  let wv := with_VERBOSE (verbose flags) w in
  main flags w =
  if showver flags
  then (0, with_stdout (stdout w ++ ["rss2email " +:+ version +:+ nl]) w)
  else match eval (Open path) w with
       | (_, Some err) =>
           (0, with_stdout
                 (stdout w ++ ["Error opening " +:+ path +:+ " - " +:+ Error err +:+ nl])
                 wv)
       | (data, None) => (0, exec (for_range (ScanLines data) ProcessLine) wv)
       end.
Proof.
  intros path wv. unfold main. destruct (showver flags); [reflexivity|].
  unfold bind, set_VERBOSE, Getenv. simpl. fold path. fold wv.
  rewrite Open_run. rewrite (Open_ext path w wv) by reflexivity. simpl.
  destruct (eval (Open path) w) as [data [err|]]; simpl; [reflexivity|].
  unfold exec. destruct (for_range (ScanLines data) ProcessLine wv). reflexivity.
Qed.

(** A relation that printing, setting the verbosity and [ProcessURL] keep
    is kept by [main]. *)
Lemma main_preserves (R : World -> World -> Prop) :
  (forall w, R w w) ->
  (forall w1 w2 w3, R w1 w2 -> R w2 w3 -> R w1 w3) ->
  (forall o w, R w (with_stdout o w)) ->
  (forall v w, R w (with_VERBOSE v w)) ->
  (forall u w, R w (exec (ProcessURL u) w)) ->
  forall flags w, R w (exec (main flags) w).
Proof.
  intros Hrefl Htrans Hout Hverb Hurl flags w.
  assert (Hrun := main_run flags w). cbv zeta in Hrun.
  unfold exec at 1. rewrite Hrun. clear Hrun.
  destruct (showver flags); [apply Hout|].
  destruct (eval (Open _) w) as [data [err|]]; simpl.
  - eapply Htrans; [apply Hverb | apply Hout].
  - eapply Htrans; [apply (Hverb (verbose flags))|].
    apply (for_range_preserves R ProcessLine Hrefl Htrans).
    intros line u. unfold exec. destruct (kept (TrimSpace line)) eqn:Hk.
    + rewrite ProcessLine_kept by exact Hk. apply Hurl.
    + rewrite ProcessLine_dropped by exact Hk. apply Hrefl.
Qed.

(** X11. The store is write-once under the whole run: [main] removes no
    file and changes the content of none, leaves the environment as it
    was, and an entry that answered "seen" before the run answers "seen"
    after it. *)
Theorem main_store_write_once :
  forall (flags : Flags) (w : World),
    let w' := exec (main flags) w in
    files (fs w) ⊆ files (fs w') /\
    environ w' = environ w /\
    (forall i : Item, eval (HasSeen i) w = true -> eval (HasSeen i) w' = true).
Proof.
  intros flags w w'. subst w'.
  split.
  { apply (main_preserves (fun a b => files (fs a) ⊆ files (fs b))).
    - reflexivity.
    - intros ? ? ? ? ?. etransitivity; eassumption.
    - reflexivity.
    - reflexivity.
    - apply ProcessURL_files. }
  assert (L : later w (exec (main flags) w)).
  { apply (main_preserves later).
    - apply later_refl.
    - apply later_trans.
    - intros o u. split; simpl; auto.
    - intros v u. split; simpl; auto.
    - apply ProcessURL_later. }
  split; [apply (later_environ _ _ L)|].
  intros i. now apply HasSeen_later.
Qed.

Lemma for_range_lines_sbo (lines : list string) (w1 w2 : World) :
  same_but_output w1 w2 ->
  same_but_output (exec (for_range lines ProcessLine) w1)
                  (exec (for_range lines ProcessLine) w2).
Proof.
  revert w1 w2. induction lines as [|l lines IH]; intros w1 w2 S; [exact S|].
  rewrite !for_range_cons. apply IH.
  unfold exec. destruct (kept (TrimSpace l)) eqn:Hk.
  - rewrite !ProcessLine_kept by exact Hk. now apply ProcessURL_sbo.
  - now rewrite !ProcessLine_dropped by exact Hk.
Qed.

(** X12. The [-verbose] flag changes the output only: two runs of [main]
    from the same world that differ in that flag alone end with the same
    store and the same environment, after the same calls with the same
    results. *)
Theorem main_verbose_flag_only_prints :
  forall (v1 v2 sv : bool) (w : World),
    let w1 := exec (main {| verbose := v1; showver := sv |}) w in
    let w2 := exec (main {| verbose := v2; showver := sv |}) w in
    fs w2 = fs w1 /\ environ w2 = environ w1 /\ trace w2 = trace w1.
Proof.
  intros v1 v2 sv w w1 w2. subst w1 w2.
  assert (S : same_but_output (exec (main {| verbose := v1; showver := sv |}) w)
                              (exec (main {| verbose := v2; showver := sv |}) w)).
  { assert (H1 := main_run {| verbose := v1; showver := sv |} w).
    assert (H2 := main_run {| verbose := v2; showver := sv |} w).
    cbv zeta in H1, H2. simpl in H1, H2.
    replace (exec (main {| verbose := v1; showver := sv |}) w)
      with (snd (main {| verbose := v1; showver := sv |} w)) by reflexivity.
    replace (exec (main {| verbose := v2; showver := sv |}) w)
      with (snd (main {| verbose := v2; showver := sv |} w)) by reflexivity.
    rewrite H1, H2.
    destruct sv; [apply sbo_refl|].
    destruct (eval (Open _) w) as [data [err|]]; simpl.
    - split; reflexivity.
    - apply for_range_lines_sbo. split; reflexivity. }
  destruct S as [He Hf _ _ Ht]. auto.
Qed.

End Loops.

(** ** Trimming *)

Lemma append_nil_r (s : string) : s +:+ "" = s.
Proof.
  induction s as [|a s IH]; [reflexivity|].
  change (String a (s +:+ "") = String a s). now rewrite IH.
Qed.

Lemma rev_app_spec (s t : string) : String.rev_app s t = String.rev s +:+ t.
Proof.
  unfold String.rev. revert t. induction s as [|a s IH]; intros t; [reflexivity|].
  simpl. rewrite (IH (String a t)), (IH (String a "")), append_assoc. reflexivity.
Qed.

Lemma rev_cons (a : ascii) (s : string) :
  String.rev (String a s) = String.rev s +:+ String a "".
Proof. unfold String.rev at 1. simpl. apply rev_app_spec. Qed.

Lemma rev_append (a b : string) :
  String.rev (a +:+ b) = String.rev b +:+ String.rev a.
Proof.
  induction a as [|x a IH].
  - change ("" +:+ b) with b. change (String.rev "") with "". now rewrite append_nil_r.
  - change (String x a +:+ b) with (String x (a +:+ b)).
    rewrite !rev_cons, IH, append_assoc. reflexivity.
Qed.

Lemma rev_involutive (s : string) : String.rev (String.rev s) = s.
Proof.
  induction s as [|a s IH]; [reflexivity|].
  rewrite rev_cons, rev_append, IH. reflexivity.
Qed.

Lemma length_rev (s : string) : String.length (String.rev s) = String.length s.
Proof.
  induction s as [|a s IH]; [reflexivity|].
  rewrite rev_cons, length_append, IH. simpl. lia.
Qed.

Lemma strip_prefix_Some (p s r : string) :
  strip_prefix p s = Some r <-> s = p +:+ r.
Proof.
  revert s. induction p as [|a p IH]; intros s.
  - simpl. change ("" +:+ r) with r. split; [now intros [= ->] | now intros ->].
  - change (String a p +:+ r) with (String a (p +:+ r)).
    destruct s as [|b s]; simpl; [split; discriminate|].
    destruct (Ascii.eqb_spec a b) as [->|Hne].
    + rewrite IH. split; [now intros -> | now intros [= ->]].
    + split; [discriminate | intros [= <- _]; now destruct Hne].
Qed.

Lemma strip_first_Some (encs : list string) (s r : string) :
  strip_first encs s = Some r -> exists e, In e encs /\ s = e +:+ r.
Proof.
  induction encs as [|e encs IH]; simpl; [discriminate|].
  destruct (strip_prefix e s) as [r'|] eqn:E.
  - intros [= ->]. exists e. split; [now left | now apply strip_prefix_Some].
  - intros H. destruct (IH H) as (e' & Hin & Hs). exists e'. split; [now right | exact Hs].
Qed.

Lemma strip_first_None (encs : list string) (s : string) :
  strip_first encs s = None -> forall e, In e encs -> strip_prefix e s = None.
Proof.
  induction encs as [|e encs IH]; simpl; [intros _ ? []|].
  destruct (strip_prefix e s) as [r'|] eqn:E; [discriminate|].
  intros H e' [<-|Hin]; [exact E | now apply IH].
Qed.

(** With enough fuel the trimming runs to its end. *)
Lemma trim_left_fuel_clean (encs : list string) (fuel : nat) (s : string) :
  Forall (fun e => (0 < String.length e)%nat) encs ->
  (String.length s <= fuel)%nat ->
  strip_first encs (trim_left_fuel encs fuel s) = None.
Proof.
  intros Hne. revert s. induction fuel as [|fuel IH]; intros s Hlen; simpl.
  - destruct s; [|simpl in Hlen; lia].
    destruct (strip_first encs "") as [r|] eqn:E; [|reflexivity].
    apply strip_first_Some in E as (e & Hin & Hs).
    rewrite Forall_forall in Hne. apply list_elem_of_In, Hne in Hin.
    apply (f_equal String.length) in Hs. rewrite length_append in Hs. simpl in Hs. lia.
  - destruct (strip_first encs s) as [r|] eqn:E; [|exact E].
    apply IH. apply strip_first_Some in E as (e & Hin & Hs).
    rewrite Forall_forall in Hne. apply list_elem_of_In, Hne in Hin.
    apply (f_equal String.length) in Hs. rewrite length_append in Hs. lia.
Qed.

(** What is left after trimming is the end of the string. *)
Lemma trim_left_fuel_suffix (encs : list string) (fuel : nat) (s : string) :
  exists p, s = p +:+ trim_left_fuel encs fuel s.
Proof.
  revert s. induction fuel as [|fuel IH]; intros s; simpl; [now exists ""|].
  destruct (strip_first encs s) as [r|] eqn:E; [|now exists ""].
  apply strip_first_Some in E as (e & _ & ->).
  destruct (IH r) as [p Hp]. exists (e +:+ p).
  rewrite append_assoc. now rewrite <- Hp.
Qed.

Lemma space_encodings_nonempty :
  Forall (fun e => (0 < String.length e)%nat) space_encodings /\
  Forall (fun e => (0 < String.length e)%nat) (map String.rev space_encodings).
Proof. split; vm_compute; repeat constructor. Qed.

Lemma TrimRightSpace_prefix (s : string) : exists q, s = TrimRightSpace s +:+ q.
Proof.
  unfold TrimRightSpace.
  destruct (trim_left_fuel_suffix (map String.rev space_encodings)
              (String.length s) (String.rev s)) as [p Hp].
  exists (String.rev p).
  rewrite <- rev_append, <- Hp. now rewrite rev_involutive.
Qed.

(** [TrimSpace] leaves no white space at either end, and gives a part of
    its argument. *)
Lemma TrimSpace_clean (s : string) :
  leading_space (TrimSpace s) = false /\ trailing_space (TrimSpace s) = false /\
  exists p q, s = p +:+ TrimSpace s +:+ q.
Proof.
  destruct space_encodings_nonempty as [Hne Hne'].
  assert (Hl : strip_first space_encodings (TrimLeftSpace s) = None).
  { apply trim_left_fuel_clean; [exact Hne | reflexivity]. }
  destruct (TrimRightSpace_prefix (TrimLeftSpace s)) as [q Hq].
  destruct (trim_left_fuel_suffix space_encodings (String.length s) s) as [p Hp].
  fold (TrimLeftSpace s) in Hp.
  split; [|split].
  - unfold leading_space, TrimSpace.
    destruct (strip_first space_encodings (TrimRightSpace (TrimLeftSpace s)))
      as [r|] eqn:E; [|reflexivity].
    apply strip_first_Some in E as (e & Hin & He).
    pose proof (strip_first_None _ _ Hl e Hin) as Hnone.
    rewrite Hq, He, append_assoc in Hnone.
    assert (Hsome : strip_prefix e (e +:+ r +:+ q) = Some (r +:+ q))
      by now apply strip_prefix_Some.
    congruence.
  - unfold trailing_space, TrimSpace, TrimRightSpace. rewrite rev_involutive.
    rewrite trim_left_fuel_clean; [reflexivity | exact Hne' |].
    now rewrite length_rev.
  - exists p, q. unfold TrimSpace. now rewrite <- Hq.
Qed.

Section Driver.

Context `{C : Collaborators}.

Lemma main_fetched (flags : Flags) (w : World) :
  let path := default "" (environ w !! "HOME") +:+ "/.rss2email/feeds" in
  fetched (events_of (main flags) w)
  = if showver flags then []
    else match eval (Open path) w with
         | (_, Some _) => []
         | (data, None) => List.filter kept (map TrimSpace (ScanLines data))
         end.
Proof.
  intros path. assert (Hrun := main_run flags w). cbv zeta in Hrun. fold path in Hrun.
  unfold events_of. replace (exec (main flags) w) with (snd (main flags w)) by reflexivity.
  rewrite Hrun. clear Hrun.
  destruct (showver flags); [simpl; now rewrite drop_all|].
  destruct (eval (Open path) w) as [data [err|]]; simpl; [now rewrite drop_all|].
  change (trace w) with (trace (with_VERBOSE (verbose flags) w)).
  apply for_range_lines_fetched.
Qed.

(** X13. Whatever the feed list holds, every URL [main] hands to the
    fetcher is the trimmed form of one of its lines, is not empty, does not
    begin with [#], and has no white space left at either end. *)
Theorem main_fetches_clean_urls :
  forall (flags : Flags) (w : World) (u : string),
    In u (fetched (events_of (main flags) w)) ->
    let path := default "" (environ w !! "HOME") +:+ "/.rss2email/feeds" in
    (exists line, In line (ScanLines (fst (eval (Open path) w))) /\ u = TrimSpace line) /\
    u <> "" /\ HasPrefix u "#" = false /\
    leading_space u = false /\ trailing_space u = false.
Proof.
  intros flags w u Hin path. rewrite main_fetched in Hin. fold path in Hin.
  destruct (showver flags); [destruct Hin|].
  destruct (eval (Open path) w) as [data [err|]]; [destruct Hin|].
  apply List.filter_In in Hin as [Hin Hk].
  apply List.in_map_iff in Hin as (line & <- & Hline).
  split; [now exists line|].
  unfold kept in Hk. apply andb_true_iff in Hk as [Hne Hc].
  apply negb_true_iff in Hne, Hc.
  split; [now apply String.eqb_neq|]. split; [exact Hc|].
  destruct (TrimSpace_clean line) as (Hl & Ht & _). auto.
Qed.

End Driver.

(** ** Who is mailed *)



Section Mailed.

Context `{C : Collaborators}.





End Mailed.

(** ** The fetch and the identifier *)

(** X15. [FetchFeed] never returns content along with an error: when
    building the request, the exchange or reading the body fails, the text
    it returns is empty.  It prints nothing and touches neither the store
    nor the environment; its one effect is the request. *)
Theorem FetchFeed_error_has_no_content :
  forall (url : string) (w : World),
    let r := eval (FetchFeed url) w in
    let w' := exec (FetchFeed url) w in
    (snd r = None \/ fst r = "") /\
    fs w' = fs w /\ environ w' = environ w /\ stdout w' = stdout w /\
    events_of (FetchFeed url) w = [CallFetchFeed url].
Proof.
  intros url w r w'. subst r w'. split.
  - unfold eval, FetchFeed, RoundTrip. run.
    repeat (case_match; simpl); simplify_eq; auto.
  - unfold events_of, exec. rewrite FetchFeed_run. simpl.
    repeat split. apply drop_app_length.
Qed.

(** X16. The identifier is a file name whatever the GUID holds: no
    character of [GUID2Hash guid] is a slash, a dot or NUL, and it is not
    empty, so the marker is an entry of the directory of the markers. *)
Theorem GUID2Hash_is_a_file_name :
  forall guid : string,
    Forall (fun c => c <> "/"%char /\ c <> "."%char /\ c <> "000"%char)
           (list_ascii_of_string (GUID2Hash guid)) /\
    GUID2Hash guid <> "".
Proof.
  intros guid. split.
  - assert (H : Forall (fun c => In c Hex.hextable)
                  (list_ascii_of_string (GUID2Hash guid))).
    { unfold GUID2Hash. apply EncodeToString_hex, Sum_bytes. }
    eapply Forall_impl; [exact H|].
    intros c Hc. simpl in Hc.
    repeat (destruct Hc as [<-|Hc]; [repeat split; discriminate|]).
    destruct Hc.
  - intros E. apply (f_equal String.length) in E.
    unfold GUID2Hash in E. rewrite EncodeToString_length, Sum_length in E.
    discriminate.
Qed.

(** ** The further properties at concrete inputs *)


(** X8 at a world without [LOGNAME]: both entries of the sample feed are
    refused, and nothing is recorded. *)
Lemma ProcessURL_without_recipient_witness :
  let run := ProcessURL (C := sample_collaborators) sample_url in
  default "" (environ world_no_logname !! "LOGNAME") = ""
  /\ (fs (exec run world_no_logname) = fs world_no_logname
      /\ Forall no_recipient_call (events_of run world_no_logname)
      /\ (forall i : Item,
            eval (HasSeen i) (exec run world_no_logname)
            = eval (HasSeen i) world_no_logname)).
Proof.
  split; [reflexivity|].
  exact (ProcessURL_without_recipient (C := sample_collaborators)
           sample_url world_no_logname eq_refl).
Defined.

(** X13 at the sample feed list. *)
Lemma main_fetches_clean_urls_witness :
  let u := "https://example.org/down" in
  In u (fetched (events_of (main (C := sample_collaborators) sample_flags) sample_world))
  /\ ((exists line,
         In line (ScanLines (fst (eval (Open "/home/u/.rss2email/feeds") sample_world)))
         /\ u = TrimSpace line)
      /\ u <> "" /\ HasPrefix u "#" = false
      /\ leading_space u = false /\ trailing_space u = false).
Proof.
  assert (Hin : In "https://example.org/down"
                  (fetched (events_of (main (C := sample_collaborators) sample_flags)
                              sample_world))).
  { vm_compute. auto. }
  split; [exact Hin|].
  exact (main_fetches_clean_urls (C := sample_collaborators)
           sample_flags sample_world "https://example.org/down" Hin).
Defined.


(** ** What is printed *)

Section Quiet.

Context `{C : Collaborators}.

Lemma SendMail_quiet (addr subject textstr htmlstr : string) (w : World) :
  VERBOSE w = false -> addr <> "" ->
  clean (sendmail_runs w (length (trace w))) ->
  stdout (exec (SendMail addr subject textstr htmlstr) w) = stdout w.
Proof.
  intros Hv Hne (H1 & H2 & H3 & H4 & H5).
  apply String.eqb_neq in Hne.
  unfold exec, SendMail, SendMail_body, Command. run.
  rewrite Hne.
  destruct (toQuotedPrintable textstr) as [text [e|]]; [reflexivity|].
  destruct (toQuotedPrintable (UnescapeString htmlstr)) as [html [e|]]; [reflexivity|].
  simpl. rewrite H1, H2, H3.
  destruct (read_out _) as [out err]. simpl in H4. subst err.
  rewrite H5, Hv. reflexivity.
Qed.

Lemma ProcessItem_unseen_quiet (i : Item) (w : World) :
  VERBOSE w = false -> eval (HasSeen i) w = false ->
  ProcessItem i w
  = match eval (SendMail (default "" (environ w !! "LOGNAME")) (Title i)
                  (HTML2Text (Content i)) (Content i)) w with
    | None => RecordSeen i
                (exec (SendMail (default "" (environ w !! "LOGNAME")) (Title i)
                         (HTML2Text (Content i)) (Content i)) w)
    | Some _ => (tt, exec (SendMail (default "" (environ w !! "LOGNAME")) (Title i)
                             (HTML2Text (Content i)) (Content i)) w)
    end.
Proof.
  intros Hv. unfold eval at 1. rewrite HasSeen_run. simpl. intros Hs.
  unfold ProcessItem, bind. rewrite HasSeen_run, Hs. simpl.
  unfold get_VERBOSE, when, Getenv. rewrite Hv. unfold ret at 1. simpl.
  unfold eval, exec. destruct (SendMail _ _ _ _ w) as [[e|] w1]; reflexivity.
Qed.

(** What a quiet, clean turn keeps. *)
Lemma ProcessItem_quiet (i : Item) (w : World) :
  VERBOSE w = false -> default "" (environ w !! "LOGNAME") <> "" ->
  (forall n, clean (sendmail_runs w n)) ->
  let w' := exec (ProcessItem i) w in
  stdout w' = stdout w /\ VERBOSE w' = VERBOSE w /\
  sendmail_runs w' = sendmail_runs w.
Proof.
  intros Hv Hlog Hclean w'. subst w'.
  destruct (eval (HasSeen i) w) eqn:Hs.
  { unfold exec. rewrite ProcessItem_seen by exact Hs. auto. }
  assert (Hq := SendMail_quiet (default "" (environ w !! "LOGNAME")) (Title i)
                  (HTML2Text (Content i)) (Content i) w Hv Hlog (Hclean _)).
  destruct (SendMail_run_returns (default "" (environ w !! "LOGNAME")) (Title i)
              (HTML2Text (Content i)) (Content i) w) as [out E].
  assert (Hv1 : VERBOSE (exec (SendMail (default "" (environ w !! "LOGNAME")) (Title i)
                                 (HTML2Text (Content i)) (Content i)) w) = VERBOSE w)
    by (unfold exec; now rewrite E).
  assert (Hs1 : sendmail_runs (exec (SendMail (default "" (environ w !! "LOGNAME"))
                                       (Title i) (HTML2Text (Content i)) (Content i)) w)
                = sendmail_runs w)
    by (unfold exec; now rewrite E).
  unfold exec at 1 2 3. rewrite (ProcessItem_unseen_quiet i w Hv Hs).
  destruct (eval (SendMail _ _ _ _) w); [auto|].
  set (w1 := exec (SendMail _ _ _ _) w) in *.
  fold (exec (RecordSeen i) w1).
  destruct (RecordSeen_run i w1) as (Hv' & _ & _ & Hs' & Ho' & _).
  repeat split; congruence.
Qed.

Lemma for_range_quiet (items : list Item) (w : World) :
  VERBOSE w = false -> default "" (environ w !! "LOGNAME") <> "" ->
  (forall n, clean (sendmail_runs w n)) ->
  stdout (exec (for_range items ProcessItem) w) = stdout w.
Proof.
  revert w. induction items as [|i items IH]; intros w Hv Hlog Hclean; [reflexivity|].
  rewrite for_range_cons.
  destruct (ProcessItem_quiet i w Hv Hlog Hclean) as (Ho & Hv' & Hs').
  rewrite IH; [exact Ho | congruence | |].
  - now rewrite (later_environ _ _ (ProcessItem_later i w)).
  - intros n. rewrite Hs'. apply Hclean.
Qed.

(** X17. A quiet run that goes well prints nothing: when the verbosity is
    off, [$LOGNAME] is set, the feed is fetched and parsed and nothing goes
    wrong with any [sendmail], [ProcessURL] leaves the output as it was.
    A body that cannot be encoded and a marker that cannot be written do
    not print either. *)
Theorem ProcessURL_quiet_when_clean :
  forall (input : string) (w : World),
    VERBOSE w = false ->
    default "" (environ w !! "LOGNAME") <> "" ->
    (forall n, clean (sendmail_runs w n)) ->
    snd (eval (FetchFeed input) w) = None ->
    snd (ParseString (fst (eval (FetchFeed input) w))) = None ->
    stdout (exec (ProcessURL input) w) = stdout w.
Proof.
  intros input w Hv Hlog Hclean Hf Hp.
  assert (Hrun := ProcessURL_run input w). cbv zeta in Hrun.
  rewrite Hf, Hv in Hrun.
  destruct (ParseString _) as [feed [err|]]; [discriminate|].
  replace (exec (ProcessURL input) w) with (snd (ProcessURL input w)) by reflexivity.
  rewrite Hrun. set (v := with_stdout _ _).
  change (stdout (exec (for_range (Items feed) ProcessItem) v) = stdout w).
  rewrite (for_range_quiet (Items feed) v Hv Hlog Hclean).
  subst v. simpl. now rewrite !app_nil_r.
Qed.

End Quiet.

(** X17 at the sample feed. *)
Lemma ProcessURL_quiet_when_clean_witness :
  (VERBOSE sample_world = false
   /\ default "" (environ sample_world !! "LOGNAME") <> ""
   /\ (forall n, clean (sendmail_runs sample_world n))
   /\ snd (eval (FetchFeed sample_url) sample_world) = None
   /\ snd (ParseString (Collaborators := sample_collaborators)
             (fst (eval (FetchFeed sample_url) sample_world))) = None)
  /\ stdout (exec (ProcessURL (C := sample_collaborators) sample_url) sample_world) = [].
Proof.
  assert (Hlog : default "" (environ sample_world !! "LOGNAME") <> "")
    by (vm_compute; discriminate).
  assert (Hclean : forall n, clean (sendmail_runs sample_world n))
    by (intros n; repeat split).
  split; [repeat split; assumption|].
  exact (ProcessURL_quiet_when_clean (C := sample_collaborators)
           sample_url sample_world eq_refl Hlog Hclean eq_refl eq_refl).
Defined.
